(** * DnssdLookupHelper: a shallow embedding of the DNS-SD lookup helper

    The development follows [DnssdHelpers.ts] (the sample application's
    copy) and the full helper with the device watcher.  Both files share
    [getDeviceFromProperties] and [findAllDevicesAsync] verbatim; they
    differ only in the [SERVICE_NAME] constant of the query. *)

From Stdlib Require Import ZArith Ascii String.
From stdpp Require Import gmap strings list fin_maps.

Set Default Proof Using "Type".
Open Scope string_scope.
Open Scope list_scope.

(** ** The regular expression of the IPv4 test

    [ipv4Pattern.test] is evaluated by a backtracking matcher over the
    regular expression syntax that the pattern uses.  Strings are
    sequences of 8-bit characters. *)

Module Regex.

Inductive regex : Type :=
| Empty                                   (* the empty alternative *)
| Char (c : ascii)                        (* a literal character *)
| Range (lo hi : ascii)                   (* [lo-hi] *)
| Digit                                   (* \d *)
| WordBoundary                            (* \b *)
| Begin                                   (* ^ *)
| End                                     (* $ *)
| Seq (r1 r2 : regex)
| Alt (r1 r2 : regex)                     (* r1|r2 *)
| Opt (r : regex)                         (* r? *)
| Repeat (n : nat) (r : regex).           (* r{n} *)

Definition code (c : ascii) : N := N_of_ascii c.

Definition in_range (lo hi c : ascii) : bool :=
  ((code lo <=? code c) && (code c <=? code hi))%N.

Definition is_digit (c : ascii) : bool := in_range "0" "9" c.

(** [\w] is [[A-Za-z0-9_]]. *)
Definition is_word (c : ascii) : bool :=
  in_range "a" "z" c || in_range "A" "Z" c || is_digit c
  || Ascii.eqb c "_".

Definition is_word_opt (o : option ascii) : bool :=
  match o with Some c => is_word c | None => false end.

Definition next_char (s : string) : option ascii :=
  match s with String c _ => Some c | EmptyString => None end.

(** [matches r prev s k]: [r] matches a prefix of [s], where [prev] is
    the character in front of the current position, and the
    continuation [k] accepts what follows.  The search succeeds when
    some choice of alternatives does, which is all that [test]
    observes. *)
Fixpoint matches (r : regex) (prev : option ascii) (s : string)
         (k : option ascii -> string -> bool) {struct r} : bool :=
  match r with
  | Empty => k prev s
  | Char c =>
      match s with
      | String c' s' => Ascii.eqb c c' && k (Some c') s'
      | EmptyString => false
      end
  | Range lo hi =>
      match s with
      | String c' s' => in_range lo hi c' && k (Some c') s'
      | EmptyString => false
      end
  | Digit =>
      match s with
      | String c' s' => is_digit c' && k (Some c') s'
      | EmptyString => false
      end
  | WordBoundary =>
      xorb (is_word_opt prev) (is_word_opt (next_char s)) && k prev s
  | Begin =>
      match prev with None => k prev s | Some _ => false end
  | End =>
      match s with EmptyString => k prev s | String _ _ => false end
  | Seq r1 r2 =>
      matches r1 prev s (fun prev' s' => matches r2 prev' s' k)
  | Alt r1 r2 =>
      matches r1 prev s k || matches r2 prev s k
  | Opt r' =>
      matches r' prev s k || k prev s
  | Repeat n r' =>
      (fix rep (n : nat) (prev : option ascii) (s : string) : bool :=
         match n with
         | O => k prev s
         | S n' => matches r' prev s (rep n')
         end) n prev s
  end.

(** A match may start at any position of the subject. *)
Fixpoint search (r : regex) (prev : option ascii) (s : string) : bool :=
  matches r prev s (fun _ _ => true)
  || match s with
     | String c s' => search r (Some c) s'
     | EmptyString => false
     end.

(** [RegExp.prototype.test] for a pattern without flags. *)
Definition test (r : regex) (s : string) : bool := search r None s.

End Regex.

(** ** Property bags and the mapped record *)

(** The values a property bag hands back ([IMapView<string, any>]): the
    three shapes that the fields of [IDnssdServiceInstance] declare, and
    [null] and [undefined], which have no properties to read. *)
Inductive PropertyValue : Type :=
| PString (s : string)
| PNumber (n : Z)
| PStringArray (l : list string)
| PNull
| PUndefined.

(** An error raised by the platform. *)
Inductive PlatformError : Type := HResult (code : Z).

(** What a [throw] carries: a failure of the platform, or the
    [TypeError] of reading a property of [null] or [undefined]. *)
Inductive Thrown : Type :=
| PlatformFailure (error : PlatformError)
| TypeError.

(** How a call ends: it returns, or it throws. *)
Inductive Completion (A : Type) : Type :=
| Returns (a : A)
| Throws (error : Thrown).
Arguments Returns {A} a.
Arguments Throws {A} error.

#[global] Instance completion_ret : MRet Completion := @Returns.
#[global] Instance completion_bind : MBind Completion :=
  fun A B f c => match c with Returns a => f a | Throws error => Throws error end.

(** [Partial<IDnssdServiceInstance>]: every field may be unset.  A field
    holds whatever value was assigned to it. *)
Record IDnssdServiceInstance : Type := mkServiceInstance {
  hostName : option PropertyValue;
  serviceName : option PropertyValue;
  instanceName : option PropertyValue;
  ipAddresses : option PropertyValue;
  ipv4Address : option PropertyValue;
  ipv6Address : option PropertyValue;
  portNumber : option PropertyValue;
  textAttributes : option PropertyValue
}.

(** The object literal [{}]. *)
Definition empty_instance : IDnssdServiceInstance :=
  mkServiceInstance None None None None None None None None.

Definition set_hostName v r :=
  mkServiceInstance (Some v) (serviceName r) (instanceName r) (ipAddresses r)
    (ipv4Address r) (ipv6Address r) (portNumber r) (textAttributes r).
Definition set_serviceName v r :=
  mkServiceInstance (hostName r) (Some v) (instanceName r) (ipAddresses r)
    (ipv4Address r) (ipv6Address r) (portNumber r) (textAttributes r).
Definition set_instanceName v r :=
  mkServiceInstance (hostName r) (serviceName r) (Some v) (ipAddresses r)
    (ipv4Address r) (ipv6Address r) (portNumber r) (textAttributes r).
Definition set_ipAddresses v r :=
  mkServiceInstance (hostName r) (serviceName r) (instanceName r) (Some v)
    (ipv4Address r) (ipv6Address r) (portNumber r) (textAttributes r).
Definition set_ipv4Address v r :=
  mkServiceInstance (hostName r) (serviceName r) (instanceName r) (ipAddresses r)
    (Some v) (ipv6Address r) (portNumber r) (textAttributes r).
Definition set_ipv6Address v r :=
  mkServiceInstance (hostName r) (serviceName r) (instanceName r) (ipAddresses r)
    (ipv4Address r) (Some v) (portNumber r) (textAttributes r).
Definition set_portNumber v r :=
  mkServiceInstance (hostName r) (serviceName r) (instanceName r) (ipAddresses r)
    (ipv4Address r) (ipv6Address r) (Some v) (textAttributes r).
Definition set_textAttributes v r :=
  mkServiceInstance (hostName r) (serviceName r) (instanceName r) (ipAddresses r)
    (ipv4Address r) (ipv6Address r) (portNumber r) (Some v).

Definition HOSTNAME_PROPERTY : string := "System.Devices.Dnssd.HostName".
Definition SERVICENAME_PROPERTY : string := "System.Devices.Dnssd.ServiceName".
Definition INSTANCENAME_PROPERTY : string := "System.Devices.Dnssd.InstanceName".
Definition IPADDRESS_PROPERTY : string := "System.Devices.IpAddress".
Definition PORTNUMBER_PROPERTY : string := "System.Devices.Dnssd.PortNumber".
Definition TEXTATTRIBUTES_PROPERTY : string := "System.Devices.Dnssd.TextAttributes".

Definition propertyKeys : list string :=
  [ HOSTNAME_PROPERTY; SERVICENAME_PROPERTY; INSTANCENAME_PROPERTY;
    IPADDRESS_PROPERTY; PORTNUMBER_PROPERTY; TEXTATTRIBUTES_PROPERTY ].

(** [/^((25[0-5]|(2[0-4]|1\d|[1-9]|)\d)\.?\b){4}$/] *)
Definition ipv4Pattern : Regex.regex :=
  let octet :=
    Regex.Alt
      (Regex.Seq (Regex.Char "2") (Regex.Seq (Regex.Char "5") (Regex.Range "0" "5")))
      (Regex.Seq
         (Regex.Alt (Regex.Seq (Regex.Char "2") (Regex.Range "0" "4"))
            (Regex.Alt (Regex.Seq (Regex.Char "1") Regex.Digit)
               (Regex.Alt (Regex.Range "1" "9") Regex.Empty)))
         Regex.Digit) in
  Regex.Seq Regex.Begin
    (Regex.Seq
       (Regex.Repeat 4
          (Regex.Seq octet (Regex.Seq (Regex.Opt (Regex.Char ".")) Regex.WordBoundary)))
       Regex.End).

(** [value.length] for the value held in [ipAddressesArray]: an array
    has its entries, a string its characters, a number has no [length],
    and reading it off [null] or [undefined] throws. *)
Definition js_length (v : PropertyValue) : Completion (option nat) :=
  match v with
  | PStringArray l => Returns (Some (length l))
  | PString s => Returns (Some (String.length s))
  | PNumber _ => Returns None
  | PNull | PUndefined => Throws TypeError
  end.

(** [value.length > n] *)
Definition length_gt (v : PropertyValue) (n : nat) : Completion bool :=
  len ← js_length v;
  mret (match len with Some len => (n <? len)%nat | None => false end).

(** [value[n]], read once the length test has passed. *)
Definition js_index (v : PropertyValue) (n : nat) : option string :=
  match v with
  | PStringArray l => l !! n
  | PString s => option_map (fun c => String c EmptyString) (String.get n s)
  | PNumber _ | PNull | PUndefined => None
  end.

(** The body of the [IPADDRESS_PROPERTY] case. *)
Definition assign_addresses (value : PropertyValue)
    (serviceInfo : IDnssdServiceInstance) : Completion IDnssdServiceInstance :=
  let ipAddressesArray := value in
  let serviceInfo := set_ipAddresses ipAddressesArray serviceInfo in
  nonempty ← length_gt ipAddressesArray 0;
  let serviceInfo :=
    if (nonempty : bool) then
      match js_index ipAddressesArray 0 with
      | Some entry0 =>
          if Regex.test ipv4Pattern entry0
          then set_ipv4Address (PString entry0) serviceInfo
          else set_ipv6Address (PString entry0) serviceInfo
      | None => serviceInfo
      end
    else serviceInfo in
  second ← length_gt ipAddressesArray 1;
  mret (if (second : bool) then
          match js_index ipAddressesArray 1 with
          | Some entry1 => set_ipv6Address (PString entry1) serviceInfo
          | None => serviceInfo
          end
        else serviceInfo).

(** The [switch (key)] of the mapping: one case per well-known key. *)
Definition assign_by_key (key : string) (value : PropertyValue)
    (serviceInfo : IDnssdServiceInstance) : Completion IDnssdServiceInstance :=
  if String.eqb key HOSTNAME_PROPERTY then mret (set_hostName value serviceInfo)
  else if String.eqb key SERVICENAME_PROPERTY then mret (set_serviceName value serviceInfo)
  else if String.eqb key INSTANCENAME_PROPERTY then mret (set_instanceName value serviceInfo)
  else if String.eqb key IPADDRESS_PROPERTY then assign_addresses value serviceInfo
  else if String.eqb key PORTNUMBER_PROPERTY then mret (set_portNumber value serviceInfo)
  else if String.eqb key TEXTATTRIBUTES_PROPERTY then mret (set_textAttributes value serviceInfo)
  else mret serviceInfo.

(** One iteration of [propertyKeys.forEach]: the [hasKey] test, the
    [lookup] and the [switch]. *)
Definition assign_property (properties : gmap string PropertyValue)
    (serviceInfo : IDnssdServiceInstance) (key : string)
  : Completion IDnssdServiceInstance :=
  match properties !! key with
  | Some value => assign_by_key key value serviceInfo
  | None => mret serviceInfo
  end.

(** [forEach] runs the iterations in order; a throw in one ends the
    call. *)
Definition getDeviceFromProperties (properties : gmap string PropertyValue)
  : Completion IDnssdServiceInstance :=
  fold_left (fun done key => serviceInfo ← done; assign_property properties serviceInfo key)
            propertyKeys (mret empty_instance).

(** ** The platform side: device information, watchers, outcomes *)

(** [Windows.Devices.Enumeration.DeviceInformation], as far as the helper
    reads it. *)
Module DeviceInformation.
Record t : Type := mk {
  id : string;
  properties : gmap string PropertyValue
}.
End DeviceInformation.

(** How a promise settles. *)
Inductive Settled (A : Type) : Type :=
| Resolved (a : A)
| Rejected (error : Thrown).
Arguments Resolved {A} a.
Arguments Rejected {A} error.

(** The outcome of [DeviceInformation.findAllAsync]: the collection of
    devices, or a failure.  Reading an entry of the collection by an
    index below its size does not fail. *)
Inductive FindAllOutcome : Type :=
| Completed (comDevices : list DeviceInformation.t)
| Failed (error : PlatformError).

(** The consumer's callback.  Invoking it is recorded; it does not call
    back into the helper. *)
Inductive Callback : Type :=
| NoCallback                      (* the initial [() => {}] *)
| UserCallback (name : nat).

(** The listeners that [startListeningForDevicesAsync] registers. *)
Inductive Listener : Type :=
| OnEnumerationCompleted (shouldListenForUpdates : bool)
    (* the arrow function, closed over [shouldListenForUpdates] *)
| OnDeviceAdded                   (* [this.onDeviceAdded.bind(this)] *)
| OnDeviceUpdated.                (* [this.onDeviceUpdated.bind(this)] *)

Inductive DeviceWatcherStatus : Type := Created | Started | Stopped.

(** A [DeviceWatcher] of the platform: its status and the listeners added
    to it, in the order of the [addEventListener] calls.  Each listener
    above stands for the event name it is added under. *)
Module Watcher.
Record t : Type := mk {
  status : DeviceWatcherStatus;
  listeners : list Listener
}.
Definition create : t := mk Created [].
Definition addEventListener (l : Listener) (w : t) : t :=
  mk (status w) (listeners w ++ [l]).
Definition start (w : t) : t := mk Started (listeners w).
Definition stop (w : t) : t := mk Stopped (listeners w).
Definition running (w : t) : bool :=
  match status w with Started => true | _ => false end.
End Watcher.

(** What a watcher reports. *)
Inductive Notification : Type :=
| EnumerationCompleted
| Added (comDevice : DeviceInformation.t)
| Updated (comDevice : DeviceInformation.t).

(** The rest of [handleDeviceAdded] and [handleDeviceUpdated] after
    [await delay(...)], with the arguments the call was made with. *)
Inductive Continuation : Type :=
| AfterDelayAdded (comDevice : DeviceInformation.t) (callback : Callback)
| AfterDelayUpdated (comDevice : DeviceInformation.t) (callback : Callback).

(** Lines written to the console. *)
Inductive LogEntry : Type :=
| LogFound (n : nat)                      (* Found n service(s) *)
| LogErrorDiscovering (error : Thrown)
| LogEnumerationCompleted (watcher : nat)
| LogStopping                             (* stopping device watcher *)
| LogDeviceAdded (id : string)            (* device with id .. added.. *)
| LogDeviceUpdated (id : string).         (* device with id .. updated.. *)

(** ** A JavaScript object used as a map

    [discoveredDevicesMap] starts as the literal [{}]: an object with no
    property of its own, whose prototype is [Object.prototype].  Its own
    properties are kept here in the order they were created. *)
Module Obj.

(** The names a plain object inherits from [Object.prototype]; each of
    them reads as a function or an object, never as [undefined]. *)
Definition prototype_names : list string :=
  [ "constructor"; "hasOwnProperty"; "isPrototypeOf"; "propertyIsEnumerable";
    "toLocaleString"; "toString"; "valueOf"; "__proto__";
    "__defineGetter__"; "__defineSetter__"; "__lookupGetter__";
    "__lookupSetter__" ].

Definition inherited (key : string) : bool :=
  existsb (String.eqb key) prototype_names.

(** The decimal digit a character stands for. *)
Definition digit (c : ascii) : option N :=
  let n := N_of_ascii c in
  if ((48 <=? n) && (n <=? 57))%N then Some (n - 48)%N else None.

Fixpoint decimal (acc : N) (s : string) : option N :=
  match s with
  | EmptyString => Some acc
  | String c s' =>
      match digit c with
      | Some d => decimal (10 * acc + d)%N s'
      | None => None
      end
  end.

(** A key is an array index when it is the canonical decimal form of an
    integer from 0 to 2^32 - 2. *)
Definition array_index (key : string) : option N :=
  match key with
  | EmptyString => None
  | String c rest =>
      if Ascii.eqb c "0"
      then match rest with EmptyString => Some 0%N | _ => None end
      else match decimal 0 key with
           | Some n => if (n <=? 4294967294)%N then Some n else None
           | None => None
           end
  end.

Section WithValues.
Context {A : Type}.

(** What reading a property gives when it is not [undefined]. *)
Inductive Member : Type :=
| Own (v : A)
| Inherited.

(** The object's own property [key]. *)
Fixpoint own (o : list (string * A)) (key : string) : option A :=
  match o with
  | [] => None
  | (k, v) :: o' => if String.eqb k key then Some v else own o' key
  end.

(** [o[key]]: the own property, else the one found on the prototype;
    [None] is [undefined]. *)
Definition get (o : list (string * A)) (key : string) : option Member :=
  match own o key with
  | Some v => Some (Own v)
  | None => if inherited key then Some Inherited else None
  end.

Fixpoint put (o : list (string * A)) (key : string) (v : A) : list (string * A) :=
  match o with
  | [] => [(key, v)]
  | (k, v0) :: o' =>
      if String.eqb k key then (k, v) :: o' else (k, v0) :: put o' key v
  end.

(** [o[key] = v]: an own property is written in place or created last;
    assigning to [__proto__] runs the inherited setter and creates no
    property. *)
Definition set (o : list (string * A)) (key : string) (v : A) : list (string * A) :=
  if String.eqb key "__proto__" then o else put o key v.

Fixpoint insert_by_index (n : N) (v : A) (l : list (N * A)) : list (N * A) :=
  match l with
  | [] => [(n, v)]
  | (m, w) :: l' =>
      if (n <? m)%N then (n, v) :: l else (m, w) :: insert_by_index n v l'
  end.

(** The properties whose key is an array index, in ascending order of
    the index. *)
Definition indexed (o : list (string * A)) : list (N * A) :=
  fold_right (fun kv acc =>
                match array_index (fst kv) with
                | Some n => insert_by_index n (snd kv) acc
                | None => acc
                end) [] o.

(** The values of the other properties, in order of creation. *)
Definition named (o : list (string * A)) : list A :=
  omap (fun kv => match array_index (fst kv) with
                  | Some _ => None
                  | None => Some (snd kv)
                  end) o.

(** [Object.values(o)]: array indices first, in ascending order, then
    the other keys in order of creation. *)
Definition values (o : list (string * A)) : list A :=
  map snd (indexed o) ++ named o.

(** The number of own properties stored under [key]. *)
Definition count (key : string) (o : list (string * A)) : nat :=
  length (List.filter (fun kv => String.eqb (fst kv) key) o).
End WithValues.
End Obj.

(** ** The helper and its surroundings

    The fields of the singleton [DnssdLookupHelper], together with what
    it acts on: the watchers the platform has created for it, the
    pending [setTimeout] continuations, the console, and the record of
    callback invocations. *)
Record State : Type := mkState {
  DeviceWatcher : option nat;       (* a reference into [watchers], or null *)
  discoveredDevicesMap : list (string * IDnssdServiceInstance);
  currentSessionCallback : Callback;
  watchers : list Watcher.t;
  timers : list (Z * Continuation); (* oldest first *)
  console : list LogEntry;
  invocations : list (Callback * list IDnssdServiceInstance)
}.

Definition DEVICE_INFORMATION_PARSING_DELAY : Z := 500.

(** The freshly constructed singleton. *)
Definition initial : State :=
  mkState None [] NoCallback [] [] [] [].

Definition set_DeviceWatcher (h : option nat) (s : State) : State :=
  mkState h (discoveredDevicesMap s) (currentSessionCallback s) (watchers s)
    (timers s) (console s) (invocations s).
Definition set_discoveredDevicesMap m (s : State) : State :=
  mkState (DeviceWatcher s) m (currentSessionCallback s) (watchers s)
    (timers s) (console s) (invocations s).
Definition set_currentSessionCallback c (s : State) : State :=
  mkState (DeviceWatcher s) (discoveredDevicesMap s) c (watchers s)
    (timers s) (console s) (invocations s).
Definition set_watchers ws (s : State) : State :=
  mkState (DeviceWatcher s) (discoveredDevicesMap s) (currentSessionCallback s) ws
    (timers s) (console s) (invocations s).
Definition set_timers ts (s : State) : State :=
  mkState (DeviceWatcher s) (discoveredDevicesMap s) (currentSessionCallback s)
    (watchers s) ts (console s) (invocations s).

Definition console_log (e : LogEntry) (s : State) : State :=
  mkState (DeviceWatcher s) (discoveredDevicesMap s) (currentSessionCallback s)
    (watchers s) (timers s) (console s ++ [e]) (invocations s).

(** [callback(discoveredServices)] *)
Definition invoke_callback (callback : Callback)
    (discoveredServices : list IDnssdServiceInstance) (s : State) : State :=
  mkState (DeviceWatcher s) (discoveredDevicesMap s) (currentSessionCallback s)
    (watchers s) (timers s) (console s)
    (invocations s ++ [(callback, discoveredServices)]).

(** [DeviceInformation.createWatcher]: a new watcher and the reference
    to it. *)
Definition createWatcher (s : State) : nat * State :=
  (length (watchers s), set_watchers (watchers s ++ [Watcher.create]) s).

Definition update_watcher (f : Watcher.t -> Watcher.t) (w : nat) (s : State) : State :=
  set_watchers (alter f w (watchers s)) s.

Definition watcher_status (w : nat) (s : State) : option DeviceWatcherStatus :=
  Watcher.status <$> watchers s !! w.

(** [setTimeout]: all delays are the same constant, so the timers expire
    in the order they were set. *)
Definition delay (ms : Z) (k : Continuation) (s : State) : State :=
  set_timers (timers s ++ [(ms, k)]) s.

(** ** One-shot enumeration *)

(** The [for] loop of [findAllDevicesAsync], from index [i] on: the
    records pushed, and what the mapping threw if it did. *)
Fixpoint findAll_loop (comDevices : list DeviceInformation.t) (i : nat) (fuel : nat)
    (services : list IDnssdServiceInstance)
  : list IDnssdServiceInstance * option Thrown :=
  match fuel with
  | O => (services, None)
  | S fuel' =>
      if (i <? length comDevices)%nat then
        match comDevices !! i with
        | Some comDevice =>
            match getDeviceFromProperties (DeviceInformation.properties comDevice) with
            | Returns device =>
                findAll_loop comDevices (S i) fuel' (services ++ [device])
            | Throws error => (services, Some error)
            end
        | None => (services, None)
        end
      else (services, None)
  end.

(** The [try] block either reaches its log line or is left for the
    [catch] block; [services] is returned in both cases. *)
Definition findAllDevicesAsync (platform : FindAllOutcome) (s : State)
  : Settled (list IDnssdServiceInstance) * State :=
  let services := [] in
  match platform with
  | Completed comDevices =>
      match findAll_loop comDevices 0 (length comDevices) services with
      | (services, None) =>
          (Resolved services, console_log (LogFound (length services)) s)
      | (services, Some error) =>
          (Resolved services, console_log (LogErrorDiscovering error) s)
      end
  | Failed error =>
      (Resolved services,
       console_log (LogErrorDiscovering (PlatformFailure error)) s)
  end.

(** ** The listening session *)

Definition stopListeningForDevices (s : State) : bool * State :=
  match DeviceWatcher s with
  | Some w =>
      let s := console_log LogStopping s in
      let s := update_watcher Watcher.stop w s in
      let s := set_DeviceWatcher None s in
      let s := set_discoveredDevicesMap [] s in
      (true, s)
  | None => (false, s)
  end.

(** The part of the two handlers that runs once the delay has elapsed.
    When the mapping throws, the handler's promise is rejected and
    nothing further of the handler runs. *)
Definition resume (k : Continuation) (s : State) : State :=
  match k with
  | AfterDelayAdded _comDevice callback =>
      let id := DeviceInformation.id _comDevice in
      match Obj.get (discoveredDevicesMap s) id with
      | None =>
          match getDeviceFromProperties (DeviceInformation.properties _comDevice) with
          | Returns device =>
              let s := set_discoveredDevicesMap (Obj.set (discoveredDevicesMap s) id device) s in
              let s := console_log (LogDeviceAdded id) s in
              invoke_callback callback (Obj.values (discoveredDevicesMap s)) s
          | Throws _ => s
          end
      | Some _ => s
      end
  | AfterDelayUpdated _comDevice callback =>
      let id := DeviceInformation.id _comDevice in
      match Obj.get (discoveredDevicesMap s) id with
      | None =>
          match getDeviceFromProperties (DeviceInformation.properties _comDevice) with
          | Returns device =>
              let s := set_discoveredDevicesMap (Obj.set (discoveredDevicesMap s) id device) s in
              let s := console_log (LogDeviceUpdated id) s in
              invoke_callback callback (Obj.values (discoveredDevicesMap s)) s
          | Throws _ => s
          end
      | Some _ => s
      end
  end.

Definition handleDeviceAdded (_comDevice : DeviceInformation.t) (callback : Callback)
    (s : State) : State :=
  delay DEVICE_INFORMATION_PARSING_DELAY (AfterDelayAdded _comDevice callback) s.

Definition handleDeviceUpdated (_comDevice : DeviceInformation.t) (callback : Callback)
    (s : State) : State :=
  delay DEVICE_INFORMATION_PARSING_DELAY (AfterDelayUpdated _comDevice callback) s.

Definition onDeviceAdded (_comDevice : DeviceInformation.t) (s : State) : State :=
  handleDeviceAdded _comDevice (currentSessionCallback s) s.

Definition onDeviceUpdated (_comDevice : DeviceInformation.t) (s : State) : State :=
  handleDeviceUpdated _comDevice (currentSessionCallback s) s.

(** [shouldListenForUpdates: boolean = false]: an omitted argument takes
    the default. *)
Definition startListeningForDevicesAsync (callback : Callback)
    (shouldListenForUpdates : option bool) (s : State) : Settled bool * State :=
  let shouldListenForUpdates := default false shouldListenForUpdates in
  let status := false in
  let s := set_DeviceWatcher None s in
  match DeviceWatcher s with
  | None =>
      let '(w, s) := createWatcher s in
      let s := set_DeviceWatcher (Some w) s in
      let s := set_currentSessionCallback callback s in
      let s := update_watcher
                 (Watcher.addEventListener (OnEnumerationCompleted shouldListenForUpdates))
                 w s in
      let s := update_watcher (Watcher.addEventListener OnDeviceAdded) w s in
      let s :=
        if shouldListenForUpdates
        then update_watcher (Watcher.addEventListener OnDeviceUpdated) w s
        else s in
      let s := update_watcher Watcher.start w s in
      let status := true in
      (Resolved status, s)
  | Some _ => (Resolved status, s)
  end.

(** ** The event loop *)

(** A listener called with what the watcher reports; a listener added
    for one event is not called for another. *)
Definition call_listener (w : nat) (n : Notification) (s : State) (l : Listener) : State :=
  match l, n with
  | OnEnumerationCompleted shouldListenForUpdates, EnumerationCompleted =>
      let s := console_log (LogEnumerationCompleted w) s in
      if negb shouldListenForUpdates then snd (stopListeningForDevices s) else s
  | OnDeviceAdded, Added _comDevice => onDeviceAdded _comDevice s
  | OnDeviceUpdated, Updated _comDevice => onDeviceUpdated _comDevice s
  | _, _ => s
  end.

(** The platform raises an event on watcher [w].  Only a started watcher
    reports anything. *)
Definition raise (w : nat) (n : Notification) (s : State) : State :=
  match watchers s !! w with
  | Some watcher =>
      if Watcher.running watcher
      then fold_left (call_listener w n) (Watcher.listeners watcher) s
      else s
  | None => s
  end.

(** The oldest pending delay elapses. *)
Definition timer_fires (s : State) : State :=
  match timers s with
  | (_, k) :: rest => resume k (set_timers rest s)
  | [] => s
  end.

(** What can happen to the helper. *)
Inductive Input : Type :=
| Raise (w : nat) (n : Notification)
| TimerFires
| CallStartListening (callback : Callback) (shouldListenForUpdates : option bool)
| CallStopListening.

Definition step (s : State) (i : Input) : State :=
  match i with
  | Raise w n => raise w n s
  | TimerFires => timer_fires s
  | CallStartListening callback shouldListenForUpdates =>
      snd (startListeningForDevicesAsync callback shouldListenForUpdates s)
  | CallStopListening => snd (stopListeningForDevices s)
  end.

Definition run (ins : list Input) (s : State) : State := fold_left step ins s.

(** ** Observations used to state the properties *)

(** The first entry of an address list that passes the IPv4 test, and the
    first one that does not. *)
Definition first_ipv4 (l : list string) : option string :=
  List.find (Regex.test ipv4Pattern) l.

Definition first_non_ipv4 (l : list string) : option string :=
  List.find (fun a => negb (Regex.test ipv4Pattern a)) l.

(** The address list of a record. *)
Definition address_list (r : IDnssdServiceInstance) : list string :=
  match ipAddresses r with Some (PStringArray l) => l | _ => [] end.

(** The reading of the convenience fields by first match, wherever the
    entries stand in the list. *)
Definition convenience_by_first_match (r : IDnssdServiceInstance) : Prop :=
  ipv4Address r = PString <$> first_ipv4 (address_list r) /\
  ipv6Address r = PString <$> first_non_ipv4 (address_list r).

(** The address lists on which reading by first match and assignment
    by position agree: at most one entry; or entry 0 passes the IPv4
    test and entry 1 does not; or entry 0 does not, entry 1 repeats it
    and no later entry passes. *)
Definition first_match_layout (l : list string) : Prop :=
  match l with
  | entry0 :: entry1 :: rest =>
      (Regex.test ipv4Pattern entry0 = true /\
       Regex.test ipv4Pattern entry1 = false) \/
      (Regex.test ipv4Pattern entry0 = false /\ entry1 = entry0 /\
       Forall (fun a => Regex.test ipv4Pattern a = false) rest)
  | _ => True
  end.

(** A value whose [length] can be read. *)
Definition has_length (v : PropertyValue) : bool :=
  match v with PNull | PUndefined => false | _ => true end.

(** The address property of the bag, if it has one, is not [null] or
    [undefined]. *)
Definition addresses_readable (properties : gmap string PropertyValue) : Prop :=
  forall value, properties !! IPADDRESS_PROPERTY = Some value ->
                has_length value = true.

(** The identifier a pending handler will look up. *)
Definition continuation_id (k : Continuation) : string :=
  match k with
  | AfterDelayAdded _comDevice _ | AfterDelayUpdated _comDevice _ =>
      DeviceInformation.id _comDevice
  end.

(** What a pending handler was called with, whichever of the two it is. *)
Definition continuation_arguments (k : Continuation) : DeviceInformation.t * Callback :=
  match k with
  | AfterDelayAdded _comDevice callback | AfterDelayUpdated _comDevice callback =>
      (_comDevice, callback)
  end.

(** What a pending handler will get from the mapping. *)
Definition continuation_device (k : Continuation) : Completion IDnssdServiceInstance :=
  getDeviceFromProperties (DeviceInformation.properties (fst (continuation_arguments k))).

Definition maps (k : Continuation) : bool :=
  match continuation_device k with Returns _ => true | Throws _ => false end.

(** How many times the helper has logged that it stops listening, which
    it does each time it empties the map. *)
Definition stop_lines (s : State) : nat :=
  length (List.filter (fun e => match e with LogStopping => true | _ => false end)
                      (console s)).

(** From [s] to [s'] timers were set and none expired, no callback was
    invoked, and the map is as it was, or empty if the helper logged
    that it stops. *)
Definition notified (s s' : State) : Prop :=
  (exists ts, timers s' = timers s ++ ts) /\
  invocations s' = invocations s /\
  stop_lines s <= stop_lines s' /\
  (stop_lines s' = stop_lines s -> discoveredDevicesMap s' = discoveredDevicesMap s) /\
  (discoveredDevicesMap s' = discoveredDevicesMap s \/ discoveredDevicesMap s' = []).


Definition is_start (i : Input) : bool :=
  match i with CallStartListening _ _ => true | _ => false end.

(** The handlers that the notifications among [ins] have set going, in
    order: what each notification appends to the timers. *)
Fixpoint scheduled (ins : list Input) (s : State) : list Continuation :=
  match ins with
  | [] => []
  | i :: ins' =>
      match i with
      | Raise _ _ => snd <$> drop (length (timers s)) (timers (step s i))
      | _ => []
      end ++ scheduled ins' (step s i)
  end.

(** The handlers that have run to their end during [ins], in order. *)
Fixpoint completed (ins : list Input) (s : State) : list Continuation :=
  match ins with
  | [] => []
  | i :: ins' =>
      match i, timers s with
      | TimerFires, (_, k) :: _ => [k]
      | _, _ => []
      end ++ completed ins' (step s i)
  end.

(** The callback invocations made during [ins] by handlers that were
    called for the device identifier [id]. *)
Fixpoint invocations_for (id : string) (ins : list Input) (s : State) : nat :=
  match ins with
  | [] => 0
  | i :: ins' =>
      match i, timers s with
      | TimerFires, (_, k) :: _ =>
          if String.eqb (continuation_id k) id
          then length (invocations (step s i)) - length (invocations s)
          else 0
      | _, _ => 0
      end + invocations_for id ins' (step s i)
  end.

(** Two states that differ at most in the console and in which of the two
    handlers each pending continuation belongs to. *)
Definition same_but_log (s1 s2 : State) : Prop :=
  DeviceWatcher s1 = DeviceWatcher s2 /\
  discoveredDevicesMap s1 = discoveredDevicesMap s2 /\
  currentSessionCallback s1 = currentSessionCallback s2 /\
  watchers s1 = watchers s2 /\
  prod_map id continuation_arguments <$> timers s1 =
    prod_map id continuation_arguments <$> timers s2 /\
  invocations s1 = invocations s2.

(** The listeners a watcher has once it is started, and those of a
    session that does not listen for updates. *)
Definition session_listeners (shouldListenForUpdates : bool) : list Listener :=
  OnEnumerationCompleted shouldListenForUpdates :: OnDeviceAdded ::
  (if shouldListenForUpdates then [OnDeviceUpdated] else []).

Definition scan_only_listeners : list Listener :=
  [OnEnumerationCompleted false; OnDeviceAdded].

(** A watcher keeps its listeners, and its status changes only by being
    stopped. *)
Definition watcher_evolves (watcher watcher' : Watcher.t) : Prop :=
  Watcher.listeners watcher' = Watcher.listeners watcher /\
  (Watcher.status watcher' = Watcher.status watcher \/
   Watcher.status watcher' = Stopped).

(** Between [s] and [s'] the watcher reference and the watchers are as
    they were, or the referenced watcher was stopped and the reference
    cleared. *)
Definition quiet_or_stopped (s s' : State) : Prop :=
  (DeviceWatcher s' = DeviceWatcher s /\ watchers s' = watchers s) \/
  (exists h, DeviceWatcher s = Some h /\ DeviceWatcher s' = None /\
             watchers s' = alter Watcher.stop h (watchers s)).

(** Watcher [w] was started without listening for updates. *)
Definition scan_only_watcher (w : nat) (s : State) : Prop :=
  exists watcher, watchers s !! w = Some watcher /\
    Watcher.listeners watcher = scan_only_listeners.

(** ... and is the one the helper refers to while it runs. *)
Definition scan_only_session (w : nat) (s : State) : Prop :=
  exists watcher, watchers s !! w = Some watcher /\
    Watcher.listeners watcher = scan_only_listeners /\
    ((Watcher.status watcher = Started /\ DeviceWatcher s = Some w) \/
     (Watcher.status watcher = Stopped /\ DeviceWatcher s = None)).

Definition scan_only_stopped (w : nat) (s : State) : Prop :=
  exists watcher, watchers s !! w = Some watcher /\
    Watcher.listeners watcher = scan_only_listeners /\
    Watcher.status watcher = Stopped.

(** Two devices as a watcher reports them, used to run the model. *)
Definition printer_a : DeviceInformation.t :=
  DeviceInformation.mk "DnsSd#printer-a._ipp._tcp.local"
    {[ HOSTNAME_PROPERTY := PString "printer-a.local";
       IPADDRESS_PROPERTY := PStringArray ["192.168.1.5"; "fe80::1"];
       PORTNUMBER_PROPERTY := PNumber 631 ]}.

Definition printer_b : DeviceInformation.t :=
  DeviceInformation.mk "DnsSd#printer-b._ipp._tcp.local"
    {[ HOSTNAME_PROPERTY := PString "printer-b.local";
       IPADDRESS_PROPERTY := PStringArray ["fe80::2"] ]}.

(** The records they map to. *)
Definition record_a : IDnssdServiceInstance :=
  mkServiceInstance (Some (PString "printer-a.local")) None None
    (Some (PStringArray ["192.168.1.5"; "fe80::1"]))
    (Some (PString "192.168.1.5")) (Some (PString "fe80::1"))
    (Some (PNumber 631)) None.

Definition record_b : IDnssdServiceInstance :=
  mkServiceInstance (Some (PString "printer-b.local")) None None
    (Some (PStringArray ["fe80::2"])) None (Some (PString "fe80::2")) None None.

(** A device whose address property is [null], one whose identifier is
    a name that every object inherits, and two whose identifiers read
    as array indices. *)
Definition printer_null : DeviceInformation.t :=
  DeviceInformation.mk "DnsSd#printer-c._ipp._tcp.local"
    {[ HOSTNAME_PROPERTY := PString "printer-c.local";
       IPADDRESS_PROPERTY := PNull ]}.

Definition printer_constructor : DeviceInformation.t :=
  DeviceInformation.mk "constructor" (DeviceInformation.properties printer_a).



(** ** Observations on everything the helper can go through *)

(** The states the helper reaches from its construction. *)
Definition reachable (s : State) : Prop := exists ins, s = run ins initial.

(** The helper refers to a watcher that is started. *)
Definition reference_started (s : State) : Prop :=
  forall w, DeviceWatcher s = Some w -> watcher_status w s = Some Started.

(** Every watcher is past its creation and has the listeners of one call
    to start. *)
Definition watchers_set_up (s : State) : Prop :=
  Forall (fun watcher =>
            Watcher.status watcher <> Created /\
            exists upd, Watcher.listeners watcher = session_listeners upd)
         (watchers s).

(** The watcher has a listener for "updated". *)
Definition listens_for_updates (watcher : Watcher.t) : bool :=
  existsb (fun l => match l with OnDeviceUpdated => true | _ => false end)
          (Watcher.listeners watcher).

(** Watcher [w] runs, and the helper does not refer to it. *)
Definition superseded (w : nat) (s : State) : Prop :=
  exists watcher, watchers s !! w = Some watcher /\
    Watcher.status watcher = Started /\ DeviceWatcher s <> Some w.

(** The calls to start among the inputs. *)
Definition count_starts (ins : list Input) : nat :=
  length (List.filter is_start ins).

(** No invocation so far has handed the callback an empty list. *)
Definition deliveries_nonempty (s : State) : Prop :=
  Forall (fun inv => snd inv <> []) (invocations s).

(** ** Dotted quads

    What the IPv4 pattern is read against: four decimal numerals from 0
    to 255, none with a leading zero, separated by dots. *)

(** The two parts the pattern is made of: one numeral, and a numeral
    with the optional dot and the word boundary that follow it. *)
Definition octet_pattern : Regex.regex :=
  Regex.Alt
    (Regex.Seq (Regex.Char "2") (Regex.Seq (Regex.Char "5") (Regex.Range "0" "5")))
    (Regex.Seq
       (Regex.Alt (Regex.Seq (Regex.Char "2") (Regex.Range "0" "4"))
          (Regex.Alt (Regex.Seq (Regex.Char "1") Regex.Digit)
             (Regex.Alt (Regex.Range "1" "9") Regex.Empty)))
       Regex.Digit).

Definition group_pattern : Regex.regex :=
  Regex.Seq octet_pattern (Regex.Seq (Regex.Opt (Regex.Char ".")) Regex.WordBoundary).

Definition digit_value (c : ascii) : nat := N.to_nat (Regex.code c) - 48.

Fixpoint numeral_value (acc : nat) (o : string) : nat :=
  match o with
  | EmptyString => acc
  | String c o' => numeral_value (10 * acc + digit_value c) o'
  end.

Fixpoint all_digits (o : string) : bool :=
  match o with
  | EmptyString => true
  | String c o' => Regex.is_digit c && all_digits o'
  end.

(** One to three digits, no leading zero before another digit, value at
    most 255. *)
Definition is_octet (o : string) : bool :=
  all_digits o
  && (1 <=? String.length o)%nat && (String.length o <=? 3)%nat
  && match o with
     | String c (String _ _) => negb (Ascii.eqb c "0")
     | _ => true
     end
  && (numeral_value 0 o <=? 255)%nat.

(** The same numerals, by the characters they are written with. *)
Definition octet_shape (o : string) : Prop :=
  match o with
  | String c EmptyString => Regex.is_digit c = true
  | String c1 (String c2 EmptyString) =>
      Regex.in_range "1" "9" c1 = true /\ Regex.is_digit c2 = true
  | String c1 (String c2 (String c3 EmptyString)) =>
      (c1 = "1"%char /\ Regex.is_digit c2 = true /\ Regex.is_digit c3 = true) \/
      (c1 = "2"%char /\ Regex.in_range "0" "4" c2 = true /\ Regex.is_digit c3 = true) \/
      (c1 = "2"%char /\ c2 = "5"%char /\ Regex.in_range "0" "5" c3 = true)
  | _ => False
  end.

(** [n] octets with dots between them. *)
Fixpoint dotted (n : nat) (s : string) : Prop :=
  match n with
  | O => s = EmptyString
  | S O => is_octet s = true
  | S n' => exists o s', is_octet o = true /\ s = o +:+ "." +:+ s' /\ dotted n' s'
  end.

Definition is_dotted_quad (s : string) : Prop :=
  exists o1 o2 o3 o4,
    s = o1 +:+ "." +:+ o2 +:+ "." +:+ o3 +:+ "." +:+ o4 /\
    is_octet o1 = true /\ is_octet o2 = true /\
    is_octet o3 = true /\ is_octet o4 = true.

(** The character a match ends on, after [prev]. *)
Fixpoint end_char (prev : option ascii) (o : string) : option ascii :=
  match o with
  | EmptyString => prev
  | String c o' => end_char (Some c) o'
  end.

(** What follows the four groups of the pattern: the end of the input. *)
Definition at_end (prev : option ascii) (s : string) : bool :=
  Regex.matches Regex.End prev s (fun _ _ => true).

(** ** The IPv4 test on sample addresses *)

Example ipv4_dotted_quad : Regex.test ipv4Pattern "192.168.1.5" = true.
Proof. reflexivity. Qed.

Example ipv4_extremes :
  Regex.test ipv4Pattern "0.0.0.0" = true /\
  Regex.test ipv4Pattern "255.255.255.255" = true.
Proof. split; reflexivity. Qed.

Example ipv4_rejects_ipv6 : Regex.test ipv4Pattern "fe80::1" = false.
Proof. reflexivity. Qed.

Example ipv4_rejects_malformed :
  Regex.test ipv4Pattern "256.1.1.1" = false /\
  Regex.test ipv4Pattern "1.2.3" = false /\
  Regex.test ipv4Pattern "1.2.3.4." = false /\
  Regex.test ipv4Pattern "1..2.3.4" = false /\
  Regex.test ipv4Pattern "01.2.3.4" = false /\
  Regex.test ipv4Pattern "1234" = false /\
  Regex.test ipv4Pattern "" = false.
Proof. repeat split; reflexivity. Qed.

(** ** Facts about the property mapping *)

Section PropertyMapping.

Implicit Types (properties : gmap string PropertyValue).
Implicit Types (r serviceInfo : IDnssdServiceInstance) (value : PropertyValue).

Lemma assign_property_lookup properties serviceInfo key :
  assign_property properties serviceInfo key =
  from_option (fun value => assign_by_key key value serviceInfo) (Returns serviceInfo)
    (properties !! key).
Proof. unfold assign_property. destruct (properties !! key); reflexivity. Qed.

(** The six iterations of [forEach], in the order of [propertyKeys]. *)
Lemma getDeviceFromProperties_unfold properties :
  getDeviceFromProperties properties =
  let r := empty_instance in
  let r := from_option (fun v => set_hostName v r) r (properties !! HOSTNAME_PROPERTY) in
  let r := from_option (fun v => set_serviceName v r) r (properties !! SERVICENAME_PROPERTY) in
  let r := from_option (fun v => set_instanceName v r) r (properties !! INSTANCENAME_PROPERTY) in
  match from_option (fun v => assign_addresses v r) (Returns r)
          (properties !! IPADDRESS_PROPERTY) with
  | Returns r =>
      let r := from_option (fun v => set_portNumber v r) r (properties !! PORTNUMBER_PROPERTY) in
      Returns (from_option (fun v => set_textAttributes v r) r
                 (properties !! TEXTATTRIBUTES_PROPERTY))
  | Throws error => Throws error
  end.
Proof.
  unfold getDeviceFromProperties, propertyKeys, assign_property.
  cbn [fold_left].
  destruct (properties !! HOSTNAME_PROPERTY), (properties !! SERVICENAME_PROPERTY),
    (properties !! INSTANCENAME_PROPERTY),
    (properties !! IPADDRESS_PROPERTY) as [addresses|],
    (properties !! PORTNUMBER_PROPERTY), (properties !! TEXTATTRIBUTES_PROPERTY);
    cbv -[assign_addresses];
    try match goal with
        | |- context [assign_addresses addresses ?r0] =>
            destruct (assign_addresses addresses r0)
        end; reflexivity.
Qed.

(** The address case throws on [null] and [undefined] ... *)
Lemma assign_addresses_throws value r :
  has_length value = false -> assign_addresses value r = Throws TypeError.
Proof. destruct value; try discriminate; reflexivity. Qed.

(** ... and otherwise writes [ipAddresses] and touches nothing but the
    three address fields. *)
Lemma assign_addresses_frame value r :
  has_length value = true ->
  exists r', assign_addresses value r = Returns r' /\
    hostName r' = hostName r /\ serviceName r' = serviceName r /\
    instanceName r' = instanceName r /\ ipAddresses r' = Some value /\
    portNumber r' = portNumber r /\ textAttributes r' = textAttributes r.
Proof.
  intros Hlen. unfold assign_addresses, length_gt.
  destruct value as [str|n|l| |]; try discriminate; cbn;
    repeat match goal with
           | |- context [if ?b then _ else _] => destruct b
           | |- context [match ?o with Some _ => _ | None => _ end] => destruct o
           end; eexists; (split; [reflexivity|]); cbn; auto 10.
Qed.

(** What the address case leaves in the two convenience fields, for an
    array of addresses. *)
Lemma assign_addresses_array (l : list string) r :
  exists r', assign_addresses (PStringArray l) r = Returns r' /\
  ipv4Address r' =
    match l with
    | entry0 :: _ =>
        if Regex.test ipv4Pattern entry0 then Some (PString entry0)
        else ipv4Address r
    | [] => ipv4Address r
    end /\
  ipv6Address r' =
    match l with
    | _ :: entry1 :: _ => Some (PString entry1)
    | [entry0] =>
        if Regex.test ipv4Pattern entry0 then ipv6Address r
        else Some (PString entry0)
    | [] => ipv6Address r
    end.
Proof.
  destruct l as [|entry0 [|entry1 rest]]; unfold assign_addresses; cbn.
  - eexists. split; [reflexivity|]. auto.
  - destruct (Regex.test ipv4Pattern entry0); eexists; (split; [reflexivity|]); cbn; auto.
  - destruct (Regex.test ipv4Pattern entry0); eexists; (split; [reflexivity|]); cbn; auto.
Qed.

(** A bag whose address property has no [length] to read is not
    mapped. *)
Lemma getDeviceFromProperties_throws properties value :
  properties !! IPADDRESS_PROPERTY = Some value -> has_length value = false ->
  getDeviceFromProperties properties = Throws TypeError.
Proof.
  intros Hip Hlen. rewrite getDeviceFromProperties_unfold, Hip. cbn zeta.
  cbn [from_option]. by rewrite assign_addresses_throws.
Qed.

(** Every other bag is, and each of the six fields is the lookup of its
    key. *)
Lemma getDeviceFromProperties_fields properties :
  addresses_readable properties ->
  exists r, getDeviceFromProperties properties = Returns r /\
    hostName r = properties !! HOSTNAME_PROPERTY /\
    serviceName r = properties !! SERVICENAME_PROPERTY /\
    instanceName r = properties !! INSTANCENAME_PROPERTY /\
    ipAddresses r = properties !! IPADDRESS_PROPERTY /\
    portNumber r = properties !! PORTNUMBER_PROPERTY /\
    textAttributes r = properties !! TEXTATTRIBUTES_PROPERTY.
Proof.
  intros Hreadable. rewrite getDeviceFromProperties_unfold. cbn zeta.
  unfold addresses_readable in Hreadable.
  destruct (properties !! IPADDRESS_PROPERTY) as [addresses|]; cbn [from_option].
  - match goal with
    | |- context [assign_addresses addresses ?r0] =>
        destruct (assign_addresses_frame addresses r0 (Hreadable _ eq_refl))
          as (r' & -> & Hh & Hs & Hi & Ha & Hp & Ht)
    end.
    eexists. split; [reflexivity|].
    destruct (properties !! HOSTNAME_PROPERTY), (properties !! SERVICENAME_PROPERTY),
      (properties !! INSTANCENAME_PROPERTY), (properties !! PORTNUMBER_PROPERTY),
      (properties !! TEXTATTRIBUTES_PROPERTY); cbn in *; auto 10.
  - eexists. split; [reflexivity|].
    destruct (properties !! HOSTNAME_PROPERTY), (properties !! SERVICENAME_PROPERTY),
      (properties !! INSTANCENAME_PROPERTY), (properties !! PORTNUMBER_PROPERTY),
      (properties !! TEXTATTRIBUTES_PROPERTY); cbn; auto 10.
Qed.

(** The convenience fields of a mapped record whose bag holds the
    address array [l]. *)
Lemma getDeviceFromProperties_addresses properties (l : list string) :
  properties !! IPADDRESS_PROPERTY = Some (PStringArray l) ->
  exists r, getDeviceFromProperties properties = Returns r /\
  ipAddresses r = Some (PStringArray l) /\
  ipv4Address r =
    match l with
    | entry0 :: _ =>
        if Regex.test ipv4Pattern entry0 then Some (PString entry0) else None
    | [] => None
    end /\
  ipv6Address r =
    match l with
    | _ :: entry1 :: _ => Some (PString entry1)
    | [entry0] =>
        if Regex.test ipv4Pattern entry0 then None else Some (PString entry0)
    | [] => None
    end.
Proof.
  intros Hip. rewrite getDeviceFromProperties_unfold, Hip. cbn zeta.
  cbn [from_option].
  match goal with
  | |- context [assign_addresses _ ?r0] =>
      destruct (assign_addresses_array l r0) as (r' & Hr' & H4 & H6);
      destruct (assign_addresses_frame (PStringArray l) r0 eq_refl)
        as (r'' & Hr'' & _ & _ & _ & Hl & _)
  end.
  rewrite Hr' in Hr''. injection Hr'' as <-. rewrite Hr'.
  eexists. split; [reflexivity|].
  destruct (properties !! HOSTNAME_PROPERTY), (properties !! SERVICENAME_PROPERTY),
    (properties !! INSTANCENAME_PROPERTY), (properties !! PORTNUMBER_PROPERTY),
    (properties !! TEXTATTRIBUTES_PROPERTY); cbn in *; rewrite ?H4, ?H6, ?Hl; auto.
Qed.

(** Without the address property the convenience fields stay unset. *)
Lemma getDeviceFromProperties_no_addresses properties :
  properties !! IPADDRESS_PROPERTY = None ->
  exists r, getDeviceFromProperties properties = Returns r /\
  ipAddresses r = None /\ ipv4Address r = None /\ ipv6Address r = None.
Proof.
  intros Hip. rewrite getDeviceFromProperties_unfold, Hip. cbn zeta.
  eexists. split; [reflexivity|].
  destruct (properties !! HOSTNAME_PROPERTY), (properties !! SERVICENAME_PROPERTY),
    (properties !! INSTANCENAME_PROPERTY), (properties !! PORTNUMBER_PROPERTY),
    (properties !! TEXTATTRIBUTES_PROPERTY); cbn; auto.
Qed.

Lemma printer_a_record :
  getDeviceFromProperties (DeviceInformation.properties printer_a) = Returns record_a.
Proof. reflexivity. Qed.

Lemma printer_b_record :
  getDeviceFromProperties (DeviceInformation.properties printer_b) = Returns record_b.
Proof. reflexivity. Qed.

End PropertyMapping.

(** ** Facts about the helper's operations *)

Section Operations.

Implicit Types (s : State) (k : Continuation) (i : Input) (ins : list Input).


Lemma set_timers_twice ts ts' s : set_timers ts (set_timers ts' s) = set_timers ts s.
Proof. destruct s; reflexivity. Qed.

Lemma run_app ins ins' s : run (ins ++ ins') s = run ins' (run ins s).
Proof. unfold run. apply fold_left_app. Qed.

Lemma run_cons i ins s : run (i :: ins) s = run ins (step s i).
Proof. reflexivity. Qed.

(** *** The map as an object *)

Lemma Obj_get_None {A} (o : list (string * A)) key :
  Obj.get o key = None <-> Obj.own o key = None /\ Obj.inherited key = false.
Proof.
  unfold Obj.get. destruct (Obj.own o key), (Obj.inherited key); split;
    try discriminate; try (intros [? ?]; discriminate); auto.
Qed.


Lemma Obj_own_None_count {A} (o : list (string * A)) key :
  Obj.own o key = None -> Obj.count key o = 0.
Proof.
  unfold Obj.count. induction o as [|[k v] o IH]; cbn; [reflexivity|].
  destruct (String.eqb k key); [discriminate | exact IH].
Qed.

Lemma Obj_get_None_count {A} (o : list (string * A)) key :
  Obj.get o key = None -> Obj.count key o = 0.
Proof. intros Hget. apply Obj_own_None_count. by apply Obj_get_None in Hget as [? _]. Qed.

Lemma Obj_put_fresh {A} (o : list (string * A)) key v :
  Obj.own o key = None -> Obj.put o key v = o ++ [(key, v)].
Proof.
  induction o as [|[k v0] o IH]; cbn; [reflexivity|].
  destruct (String.eqb k key); [discriminate|].
  intros Hown. rewrite IH by assumption. reflexivity.
Qed.

Lemma inherited_not_proto key :
  Obj.inherited key = false -> String.eqb key "__proto__" = false.
Proof.
  unfold Obj.inherited, Obj.prototype_names. cbn [existsb].
  destruct (String.eqb key "__proto__"); [|reflexivity].
  rewrite !orb_true_r. discriminate.
Qed.

Lemma Obj_set_fresh {A} (o : list (string * A)) key v :
  Obj.get o key = None -> Obj.set o key v = o ++ [(key, v)].
Proof.
  intros Hget. apply Obj_get_None in Hget as [Hown Hname].
  unfold Obj.set. rewrite (inherited_not_proto _ Hname). by apply Obj_put_fresh.
Qed.

Lemma Obj_count_app {A} (o o' : list (string * A)) key :
  Obj.count key (o ++ o') = Obj.count key o + Obj.count key o'.
Proof. unfold Obj.count. rewrite List.filter_app, length_app. reflexivity. Qed.

Lemma Obj_count_singleton {A} key (key' : string) (v : A) :
  Obj.count key [(key', v)] = if String.eqb key' key then 1 else 0.
Proof. unfold Obj.count. cbn. destruct (String.eqb key' key); reflexivity. Qed.

Lemma Obj_own_app {A} (o o' : list (string * A)) key :
  Obj.own (o ++ o') key =
  match Obj.own o key with Some x => Some x | None => Obj.own o' key end.
Proof.
  induction o as [|[k0 v0] o IH]; cbn; [reflexivity|].
  destruct (String.eqb k0 key); [reflexivity | exact IH].
Qed.

(** A name that reads as something keeps doing so when properties are
    added, and an own property keeps its value. *)
Lemma Obj_get_app_known {A} (o o' : list (string * A)) key :
  is_Some (Obj.get o key) -> is_Some (Obj.get (o ++ o') key).
Proof.
  unfold Obj.get. rewrite Obj_own_app.
  destruct (Obj.own o key); [eauto|].
  destruct (Obj.inherited key); [|by intros [? ?]].
  destruct (Obj.own o' key); eauto.
Qed.


Lemma Obj_get_app_fresh {A} (o : list (string * A)) key (key' : string) (v : A) :
  Obj.get o key = None ->
  Obj.get (o ++ [(key', v)]) key =
  if String.eqb key' key then Some (Obj.Own v) else None.
Proof.
  intros Hget. apply Obj_get_None in Hget as [Hown Hname].
  unfold Obj.get. rewrite Obj_own_app, Hown, Hname. cbn.
  by destruct (String.eqb key' key).
Qed.

(** *** The values of an object *)

Lemma insert_by_index_length {A} n (v : A) l :
  length (Obj.insert_by_index n v l) = S (length l).
Proof.
  induction l as [|[m w] l IH]; cbn; [reflexivity|].
  destruct (n <? m)%N; cbn; [reflexivity | by rewrite IH].
Qed.

(** [Object.values] lists every own property once. *)
Lemma Obj_values_length {A} (o : list (string * A)) :
  length (Obj.values o) = length o.
Proof.
  unfold Obj.values, Obj.indexed, Obj.named. rewrite length_app, length_map.
  induction o as [|[k v] o IH]; cbn; [reflexivity|].
  destruct (Obj.array_index k); cbn; rewrite ?insert_by_index_length; lia.
Qed.

Lemma Obj_indexed_snoc_named {A} (o : list (string * A)) key (v : A) :
  Obj.array_index key = None -> Obj.indexed (o ++ [(key, v)]) = Obj.indexed o.
Proof.
  intros Hkey. unfold Obj.indexed. rewrite fold_right_app. cbn. by rewrite Hkey.
Qed.

(** A property whose key is no array index comes last. *)
Lemma Obj_values_snoc_named {A} (o : list (string * A)) key (v : A) :
  Obj.array_index key = None -> Obj.values (o ++ [(key, v)]) = Obj.values o ++ [v].
Proof.
  intros Hkey. unfold Obj.values. rewrite (Obj_indexed_snoc_named _ _ _ Hkey).
  unfold Obj.named. rewrite omap_app. cbn. rewrite Hkey. by rewrite app_assoc.
Qed.


Lemma Obj_values_singleton {A} key (v : A) : Obj.values [(key, v)] = [v].
Proof. unfold Obj.values, Obj.indexed, Obj.named. cbn. by destruct (Obj.array_index key). Qed.

(** *** A handler after its delay *)

(** The handler's effect, for either of the two: nothing when the
    identifier reads as something or the mapping throws, one new entry
    and one invocation otherwise. *)
Lemma resume_known k s :
  is_Some (Obj.get (discoveredDevicesMap s) (continuation_id k)) ->
  resume k s = s.
Proof. intros [m Hget]. destruct k; cbn in *; rewrite Hget; reflexivity. Qed.

Lemma resume_throws k s :
  maps k = false -> resume k s = s.
Proof.
  unfold maps, continuation_device.
  destruct k as [d cb|d cb]; unfold resume; cbn [continuation_arguments fst];
    destruct (getDeviceFromProperties (DeviceInformation.properties d));
    try discriminate; intros _;
    by destruct (Obj.get (discoveredDevicesMap s) (DeviceInformation.id d)).
Qed.

Lemma resume_fresh k s device :
  Obj.get (discoveredDevicesMap s) (continuation_id k) = None ->
  continuation_device k = Returns device ->
  let m := discoveredDevicesMap s ++ [(continuation_id k, device)] in
  discoveredDevicesMap (resume k s) = m /\
  invocations (resume k s) =
    invocations s ++ [(snd (continuation_arguments k), Obj.values m)] /\
  DeviceWatcher (resume k s) = DeviceWatcher s /\
  currentSessionCallback (resume k s) = currentSessionCallback s /\
  watchers (resume k s) = watchers s /\
  timers (resume k s) = timers s.
Proof.
  unfold continuation_device.
  destruct k; unfold resume; cbn [continuation_id continuation_arguments fst snd];
    intros Hget Hdevice; rewrite Hget, Hdevice; cbn;
    rewrite (Obj_set_fresh _ _ _ Hget); auto 10.
Qed.

(** The three cases of a handler. *)
Lemma resume_cases k s :
  (resume k s = s /\
   (is_Some (Obj.get (discoveredDevicesMap s) (continuation_id k)) \/ maps k = false)) \/
  (exists device,
     Obj.get (discoveredDevicesMap s) (continuation_id k) = None /\
     continuation_device k = Returns device).
Proof.
  destruct (Obj.get (discoveredDevicesMap s) (continuation_id k)) as [m|] eqn:Hget.
  - left. split; [apply resume_known; rewrite Hget; eauto | left; eauto].
  - destruct (continuation_device k) as [device|error] eqn:Hdevice.
    + right. eauto.
    + left. assert (Hmaps : maps k = false) by (unfold maps; by rewrite Hdevice).
      split; [by apply resume_throws | by right].
Qed.

Lemma resume_frame k s :
  DeviceWatcher (resume k s) = DeviceWatcher s /\
  currentSessionCallback (resume k s) = currentSessionCallback s /\
  watchers (resume k s) = watchers s /\
  timers (resume k s) = timers s.
Proof.
  destruct (resume_cases k s) as [[-> _]|(device & Hget & Hdevice)]; [auto|].
  destruct (resume_fresh k s device Hget Hdevice) as (_ & _ & H). exact H.
Qed.

(** A handler never logs that the helper stops. *)
Lemma resume_stop_lines k s : stop_lines (resume k s) = stop_lines s.
Proof.
  destruct k as [d cb|d cb]; unfold resume;
    destruct (Obj.get (discoveredDevicesMap s) (DeviceInformation.id d));
    try reflexivity;
    destruct (getDeviceFromProperties (DeviceInformation.properties d));
    try reflexivity; unfold stop_lines; cbn;
    rewrite List.filter_app, length_app; cbn; lia.
Qed.

(** *** Notifications *)




End Operations.

(** ** Facts about watchers *)

Section Watchers.

Implicit Types (s : State) (i : Input) (ins : list Input) (w h : nat).
Implicit Types (watcher : Watcher.t) (ws : list Watcher.t).

Lemma alter_snoc (f : Watcher.t -> Watcher.t) ws watcher :
  alter f (length ws) (ws ++ [watcher]) = ws ++ [f watcher].
Proof. induction ws as [|x ws IH]; cbn; [reflexivity | by rewrite <- IH]. Qed.

Lemma update_watcher_snoc f ref m c ws watcher ts con inv :
  update_watcher f (length ws) (mkState ref m c (ws ++ [watcher]) ts con inv) =
  mkState ref m c (ws ++ [f watcher]) ts con inv.
Proof. unfold update_watcher, set_watchers. cbn. by rewrite alter_snoc. Qed.

(** Starting: whatever the state, a new watcher is created, given its
    listeners and started, and the promise resolves to [true]. *)
Lemma start_effect callback arg s :
  startListeningForDevicesAsync callback arg s =
  (Resolved true,
   mkState (Some (length (watchers s))) (discoveredDevicesMap s) callback
     (watchers s ++ [Watcher.mk Started (session_listeners (default false arg))])
     (timers s) (console s) (invocations s)).
Proof.
  destruct s as [ref m c ws ts con inv].
  unfold startListeningForDevicesAsync, createWatcher, set_watchers,
    set_DeviceWatcher, set_currentSessionCallback.
  cbn [DeviceWatcher discoveredDevicesMap currentSessionCallback watchers timers
       console invocations].
  rewrite !update_watcher_snoc.
  destruct (default false arg); rewrite ?update_watcher_snoc; reflexivity.
Qed.

Lemma stop_effect s :
  stopListeningForDevices s =
  match DeviceWatcher s with
  | Some h =>
      (true,
       mkState None [] (currentSessionCallback s)
         (alter Watcher.stop h (watchers s)) (timers s)
         (console s ++ [LogStopping]) (invocations s))
  | None => (false, s)
  end.
Proof. unfold stopListeningForDevices. destruct (DeviceWatcher s); reflexivity. Qed.

Lemma watcher_evolves_refl watcher : watcher_evolves watcher watcher.
Proof. split; auto. Qed.

Lemma watcher_evolves_trans watcher1 watcher2 watcher3 :
  watcher_evolves watcher1 watcher2 -> watcher_evolves watcher2 watcher3 ->
  watcher_evolves watcher1 watcher3.
Proof.
  intros [Hl1 Hs1] [Hl2 Hs2]. split; [congruence|].
  destruct Hs2 as [Hs2|Hs2]; [rewrite Hs2; exact Hs1 | by right].
Qed.

Lemma alter_stop_lookup ws h w watcher :
  ws !! w = Some watcher ->
  exists watcher', alter Watcher.stop h ws !! w = Some watcher' /\
                   watcher_evolves watcher watcher'.
Proof.
  intros Hw. destruct (decide (h = w)) as [->|Hne].
  - exists (Watcher.stop watcher). rewrite list_lookup_alter_eq, Hw.
    split; [reflexivity|]. split; [reflexivity | by right].
  - exists watcher. rewrite list_lookup_alter_ne by exact Hne.
    split; [exact Hw | apply watcher_evolves_refl].
Qed.

Lemma quiet_or_stopped_refl s : quiet_or_stopped s s.
Proof. left. auto. Qed.

Lemma quiet_or_stopped_trans s1 s2 s3 :
  quiet_or_stopped s1 s2 -> quiet_or_stopped s2 s3 -> quiet_or_stopped s1 s3.
Proof.
  intros [[Hh1 Hw1]|(h1 & Hs1 & Hn1 & Hw1)] [[Hh2 Hw2]|(h2 & Hs2 & Hn2 & Hw2)].
  - left. split; congruence.
  - right. exists h2. repeat split; congruence.
  - right. exists h1. repeat split; congruence.
  - congruence.
Qed.

Lemma stop_quiet_or_stopped s : quiet_or_stopped s (snd (stopListeningForDevices s)).
Proof.
  rewrite stop_effect. destruct (DeviceWatcher s) as [h|] eqn:Hh.
  - right. exists h. auto.
  - left. auto.
Qed.

Lemma call_listener_quiet_or_stopped w n s (l : Listener) :
  quiet_or_stopped s (call_listener w n s l).
Proof.
  destruct l as [[|]| |], n; cbn; try apply quiet_or_stopped_refl;
    try (left; split; reflexivity).
  pose proof (stop_quiet_or_stopped (console_log (LogEnumerationCompleted w) s)) as H.
  destruct H as [[Hh Hw]|(h & Hs & Hn & Hw)]; [left | right; exists h]; auto.
Qed.

Lemma raise_quiet_or_stopped w n s : quiet_or_stopped s (raise w n s).
Proof.
  unfold raise. destruct (watchers s !! w) as [watcher|]; [|apply quiet_or_stopped_refl].
  destruct (Watcher.running watcher); [|apply quiet_or_stopped_refl].
  generalize (Watcher.listeners watcher) as ls. intros ls. revert s.
  induction ls as [|l ls IH]; intros s; cbn; [apply quiet_or_stopped_refl|].
  eapply quiet_or_stopped_trans; [apply call_listener_quiet_or_stopped | apply IH].
Qed.

Lemma timer_fires_quiet s : quiet_or_stopped s (timer_fires s).
Proof.
  unfold timer_fires. destruct (timers s) as [|[ms k] rest]; [apply quiet_or_stopped_refl|].
  destruct (resume_frame k (set_timers rest s)) as (Hh & _ & Hw & _).
  left. rewrite Hh, Hw. destruct s; auto.
Qed.

(** No input but a call to start does more to the watchers than stop
    the one the helper refers to. *)
Lemma step_quiet_or_stopped s i :
  is_start i = false -> quiet_or_stopped s (step s i).
Proof.
  destruct i; cbn; try discriminate; intros _.
  - apply raise_quiet_or_stopped.
  - apply timer_fires_quiet.
  - apply stop_quiet_or_stopped.
Qed.

(** Whatever happens, a watcher that exists keeps its listeners and is
    at most stopped. *)
Lemma step_watcher_evolves s i w watcher :
  watchers s !! w = Some watcher ->
  exists watcher', watchers (step s i) !! w = Some watcher' /\
                   watcher_evolves watcher watcher'.
Proof.
  intros Hw. destruct (is_start i) eqn:Hi.
  - destruct i; try discriminate. cbn [step]. rewrite start_effect. cbn.
    exists watcher. split; [|apply watcher_evolves_refl].
    by apply lookup_app_l_Some.
  - destruct (step_quiet_or_stopped s i Hi) as [[_ ->]|(h & _ & _ & ->)].
    + exists watcher. split; [exact Hw | apply watcher_evolves_refl].
    + by apply alter_stop_lookup.
Qed.

Lemma run_watcher_evolves ins s w watcher :
  watchers s !! w = Some watcher ->
  exists watcher', watchers (run ins s) !! w = Some watcher' /\
                   watcher_evolves watcher watcher'.
Proof.
  revert s watcher. induction ins as [|i ins IH]; intros s watcher Hw.
  - exists watcher. split; [exact Hw | apply watcher_evolves_refl].
  - rewrite run_cons.
    destruct (step_watcher_evolves s i w watcher Hw) as (watcher1 & Hw1 & He1).
    destruct (IH _ _ Hw1) as (watcher2 & Hw2 & He2).
    exists watcher2. split; [exact Hw2 | by eapply watcher_evolves_trans].
Qed.

(** *** A session that does not listen for updates *)

Lemma start_scan_only callback arg s :
  default false arg = false ->
  let w := length (watchers s) in
  let s1 := snd (startListeningForDevicesAsync callback arg s) in
  DeviceWatcher s1 = Some w /\
  watchers s1 !! w = Some (Watcher.mk Started scan_only_listeners).
Proof.
  intros Harg. rewrite start_effect, Harg. cbn.
  split; [reflexivity|]. by rewrite lookup_app_r, Nat.sub_diag.
Qed.

Lemma scan_only_session_step s i w :
  is_start i = false -> scan_only_session w s -> scan_only_session w (step s i).
Proof.
  intros Hi (watcher & Hw & Hl & Hst).
  destruct (step_quiet_or_stopped s i Hi) as [[Hh' Hw']|(h & Hh & Hh' & Hw')].
  - exists watcher. rewrite Hh', Hw'. auto.
  - destruct Hst as [[Hst Hcur]|[Hst Hcur]]; [|congruence].
    assert (h = w) as -> by congruence.
    exists (Watcher.stop watcher). rewrite Hw', list_lookup_alter_eq, Hw.
    repeat split; [exact Hl | right; by split].
Qed.

Lemma scan_only_session_run ins s w :
  forallb (fun i => negb (is_start i)) ins = true ->
  scan_only_session w s -> scan_only_session w (run ins s).
Proof.
  revert s. induction ins as [|i ins IH]; intros s Hins Hs; [exact Hs|].
  cbn in Hins. apply andb_prop in Hins as [Hi Hins].
  rewrite run_cons. apply IH; [exact Hins|].
  apply scan_only_session_step; [by destruct (is_start i) | exact Hs].
Qed.

(** A stopped watcher reports nothing. *)
Lemma raise_stopped w n s :
  scan_only_stopped w s -> raise w n s = s.
Proof.
  intros (watcher & Hw & _ & Hst). unfold raise, Watcher.running.
  by rewrite Hw, Hst.
Qed.

Lemma scan_only_stopped_run ins s w :
  scan_only_stopped w s -> scan_only_stopped w (run ins s).
Proof.
  intros (watcher & Hw & Hl & Hst).
  destruct (run_watcher_evolves ins s w watcher Hw) as (watcher' & Hw' & Hl' & Hs').
  exists watcher'. repeat split; [exact Hw' | congruence |].
  destruct Hs' as [Hs'|Hs']; congruence.
Qed.

(** The end of the enumeration stops the session's watcher and clears
    the helper's reference. *)
Lemma raise_enumeration_completed w s :
  scan_only_session w s ->
  scan_only_stopped w (raise w EnumerationCompleted s) /\
  DeviceWatcher (raise w EnumerationCompleted s) = None.
Proof.
  intros (watcher & Hw & Hl & [[Hst Hcur]|[Hst Hcur]]).
  - unfold raise, Watcher.running. rewrite Hw, Hst, Hl.
    cbn [scan_only_listeners fold_left call_listener negb].
    rewrite stop_effect. cbn. rewrite Hcur. cbn. split; [|reflexivity].
    exists (Watcher.stop watcher). unfold watchers at 1.
    rewrite list_lookup_alter_eq, Hw. repeat split. exact Hl.
  - rewrite raise_stopped; [|exists watcher; auto].
    split; [exists watcher; auto | exact Hcur].
Qed.

Lemma scan_only_stopped_session w s :
  scan_only_stopped w s -> DeviceWatcher s = None -> scan_only_session w s.
Proof. intros (watcher & Hw & Hl & Hst) Hcur. exists watcher. auto. Qed.

Lemma scan_only_session_stopped_reference w s :
  scan_only_session w s -> scan_only_stopped w s -> DeviceWatcher s = None.
Proof.
  intros (watcher & Hw & _ & [[Hst _]|[_ Hcur]]) (watcher' & Hw' & _ & Hst');
    [congruence | exact Hcur].
Qed.

(** *** What a notification sets going *)

(** On a running watcher as [startListeningForDevicesAsync] sets it up,
    an "added" notification schedules [handleDeviceAdded] with the
    current callback; an "updated" notification schedules
    [handleDeviceUpdated] when the session listens for updates and is
    lost when it does not. *)
Lemma raise_added_schedules w upd comDevice s :
  watchers s !! w = Some (Watcher.mk Started (session_listeners upd)) ->
  raise w (Added comDevice) s =
  delay DEVICE_INFORMATION_PARSING_DELAY
    (AfterDelayAdded comDevice (currentSessionCallback s)) s.
Proof.
  intros Hw. unfold raise. rewrite Hw. destruct upd; reflexivity.
Qed.

Lemma raise_updated_schedules w upd comDevice s :
  watchers s !! w = Some (Watcher.mk Started (session_listeners upd)) ->
  raise w (Updated comDevice) s =
  if upd
  then delay DEVICE_INFORMATION_PARSING_DELAY
         (AfterDelayUpdated comDevice (currentSessionCallback s)) s
  else s.
Proof.
  intros Hw. unfold raise. rewrite Hw. destruct upd; reflexivity.
Qed.

(** Without a listener for it, an "updated" notification is lost. *)
Lemma raise_updated_scan_only w comDevice s :
  scan_only_watcher w s -> raise w (Updated comDevice) s = s.
Proof.
  intros (watcher & Hw & Hl). unfold raise. rewrite Hw, Hl.
  by destruct (Watcher.running watcher).
Qed.

Lemma scan_only_watcher_run ins s w :
  scan_only_watcher w s -> scan_only_watcher w (run ins s).
Proof.
  intros (watcher & Hw & Hl).
  destruct (run_watcher_evolves ins s w watcher Hw) as (watcher' & Hw' & Hl' & _).
  exists watcher'. split; [exact Hw' | congruence].
Qed.

End Watchers.

(** ** Facts about a listening session *)

Section Session.

Implicit Types (s : State) (k : Continuation) (i : Input) (ins : list Input).
Implicit Types (id : string).

(** *** What a notification can do *)

Lemma notified_refl s : notified s s.
Proof. split; [exists []; by rewrite app_nil_r | auto]. Qed.

Lemma notified_trans s1 s2 s3 : notified s1 s2 -> notified s2 s3 -> notified s1 s3.
Proof.
  intros ([ts1 Ht1] & Hi1 & Hl1 & Hm1 & He1) ([ts2 Ht2] & Hi2 & Hl2 & Hm2 & He2).
  split; [exists (ts1 ++ ts2); by rewrite Ht2, Ht1, app_assoc|].
  split; [congruence|]. split; [lia|]. split.
  - intros Heq. rewrite Hm2, Hm1 by lia. reflexivity.
  - destruct He2 as [->| ->]; [exact He1 | by right].
Qed.

Lemma stop_lines_console_log e s :
  stop_lines (console_log e s) =
  stop_lines s + match e with LogStopping => 1 | _ => 0 end.
Proof.
  unfold stop_lines, console_log. cbn [console].
  rewrite List.filter_app, length_app. by destruct e.
Qed.

Lemma stop_notified s : notified s (snd (stopListeningForDevices s)).
Proof.
  rewrite stop_effect. destruct (DeviceWatcher s); [|apply notified_refl].
  unfold notified, stop_lines. cbn.
  rewrite List.filter_app, length_app. cbn.
  split; [exists []; by rewrite app_nil_r|]. split; [reflexivity|].
  split; [lia|]. split; [lia | by right].
Qed.

Lemma console_log_notified e s :
  e <> LogStopping -> notified s (console_log e s).
Proof.
  intros He. unfold notified. rewrite stop_lines_console_log.
  split; [exists []; by rewrite app_nil_r|]. split; [reflexivity|].
  destruct e; try congruence; (split; [lia|]); split; solve [reflexivity | by left].
Qed.

Lemma delay_notified ms k s : notified s (delay ms k s).
Proof.
  unfold notified, delay, stop_lines. cbn. split; [eauto|]. auto 6.
Qed.

Lemma call_listener_notified w n s (l : Listener) : notified s (call_listener w n s l).
Proof.
  destruct l as [upd| |], n; cbn [call_listener]; try apply notified_refl.
  - eapply notified_trans; [apply (console_log_notified (LogEnumerationCompleted w)); discriminate|].
    destruct upd; cbn [negb]; [apply notified_refl | apply stop_notified].
  - apply delay_notified.
  - apply delay_notified.
Qed.

Lemma raise_notified w n s : notified s (raise w n s).
Proof.
  unfold raise. destruct (watchers s !! w) as [watcher|]; [|apply notified_refl].
  destruct (Watcher.running watcher); [|apply notified_refl].
  generalize (Watcher.listeners watcher) as ls. intros ls. revert s.
  induction ls as [|l ls IH]; intros s; cbn; [apply notified_refl|].
  eapply notified_trans; [apply call_listener_notified | apply IH].
Qed.

(** *** One input *)

Lemma timer_fires_stop_lines s : stop_lines (timer_fires s) = stop_lines s.
Proof.
  unfold timer_fires. destruct (timers s) as [|[ms k] rest]; [reflexivity|].
  rewrite resume_stop_lines. by destruct s.
Qed.

(** The helper's log of its stops only grows. *)
Lemma step_stop_lines s i : stop_lines s <= stop_lines (step s i).
Proof.
  destruct i as [w n| | |]; cbn [step].
  - by destruct (raise_notified w n s) as (_ & _ & H & _).
  - by rewrite timer_fires_stop_lines.
  - by rewrite start_effect.
  - by destruct (stop_notified s) as (_ & _ & H & _).
Qed.

Lemma run_stop_lines ins s : stop_lines s <= stop_lines (run ins s).
Proof.
  revert s. induction ins as [|i ins IH]; intros s; [reflexivity|].
  rewrite run_cons. etransitivity; [apply step_stop_lines | apply IH].
Qed.

Lemma quiet_cons i ins s :
  stop_lines (run (i :: ins) s) = stop_lines s ->
  stop_lines (step s i) = stop_lines s /\
  stop_lines (run ins (step s i)) = stop_lines (step s i).
Proof.
  rewrite run_cons. intros Heq.
  pose proof (step_stop_lines s i). pose proof (run_stop_lines ins (step s i)). lia.
Qed.


(** What one input does to the map and the record of invocations, as
    long as the helper does not stop: nothing, or one new entry at the
    end of the map together with one invocation. *)
Lemma session_step s i :
  stop_lines (step s i) = stop_lines s ->
  (discoveredDevicesMap (step s i) = discoveredDevicesMap s /\
   invocations (step s i) = invocations s /\
   (forall k ms rest, i = TimerFires -> timers s = (ms, k) :: rest ->
      is_Some (Obj.get (discoveredDevicesMap s) (continuation_id k)) \/
      maps k = false)) \/
  (exists k ms rest device,
     i = TimerFires /\ timers s = (ms, k) :: rest /\
     Obj.get (discoveredDevicesMap s) (continuation_id k) = None /\
     continuation_device k = Returns device /\
     discoveredDevicesMap (step s i) =
       discoveredDevicesMap s ++ [(continuation_id k, device)] /\
     invocations (step s i) =
       invocations s ++
       [(snd (continuation_arguments k),
         Obj.values (discoveredDevicesMap s ++ [(continuation_id k, device)]))]).
Proof.
  destruct i as [w n| | |]; cbn [step]; intros Hquiet.
  - left. destruct (raise_notified w n s) as (_ & Hinv & _ & Hm & _).
    split; [by apply Hm|]. split; [exact Hinv | discriminate].
  - unfold timer_fires. destruct (timers s) as [|[ms k] rest] eqn:Hts.
    + left. repeat split; discriminate.
    + destruct (resume_cases k (set_timers rest s)) as [[-> Hwhy]|(device & Hget & Hdevice)].
      * left. destruct s; cbn in *. repeat split.
        intros k' ms' rest' _ [= _ <- _]. exact Hwhy.
      * right. destruct (resume_fresh k (set_timers rest s) device Hget Hdevice)
          as (Hm & Hinv & _).
        exists k, ms, rest, device. rewrite Hm, Hinv.
        destruct s; cbn in *. auto 10.
  - left. rewrite start_effect. cbn. repeat split; discriminate.
  - left. rewrite stop_effect in *. destruct (DeviceWatcher s).
    + exfalso. revert Hquiet. unfold stop_lines. cbn.
      rewrite List.filter_app, length_app. cbn. lia.
    + repeat split; discriminate.
Qed.

Lemma step_timers_raise s w n :
  timers s ++ drop (length (timers s)) (timers (raise w n s)) = timers (raise w n s).
Proof.
  destruct (raise_notified w n s) as ([ts ->] & _).
  by rewrite drop_app_length.
Qed.

(** Timers expire in the order they were set: what was pending or has
    been scheduled has completed or is still pending. *)
Lemma session_fifo ins s :
  (snd <$> timers s) ++ scheduled ins s =
  completed ins s ++ (snd <$> timers (run ins s)).
Proof.
  revert s. induction ins as [|i ins IH]; intros s.
  - cbn. by rewrite app_nil_r.
  - rewrite run_cons. cbn [scheduled completed].
    specialize (IH (step s i)).
    destruct i as [w n| |callback arg|].
    + cbn [step] in *.
      rewrite app_assoc, <- fmap_app, step_timers_raise. exact IH.
    + cbn [step] in *.
      unfold timer_fires in *. destruct (timers s) as [|[ms k] rest] eqn:Hts.
      * rewrite Hts in IH. exact IH.
      * destruct (resume_frame k (set_timers rest s)) as (_ & _ & _ & Ht).
        rewrite Ht in IH. replace (timers (set_timers rest s)) with rest in IH
          by (destruct s; reflexivity).
        cbn. rewrite <- IH. reflexivity.
    + assert (Ht : timers (step s (CallStartListening callback arg)) = timers s)
        by (cbn [step]; by rewrite start_effect).
      rewrite Ht in IH. exact IH.
    + assert (Ht : timers (step s CallStopListening) = timers s)
        by (cbn [step]; rewrite stop_effect; by destruct (DeviceWatcher s)).
      rewrite Ht in IH. exact IH.
Qed.

(** Once an identifier reads as something in the map, nothing adds an
    entry or makes an invocation for it until the helper stops. *)
Lemma known_stays_known ins s id :
  stop_lines (run ins s) = stop_lines s ->
  is_Some (Obj.get (discoveredDevicesMap s) id) ->
  Obj.count id (discoveredDevicesMap (run ins s)) = Obj.count id (discoveredDevicesMap s) /\
  invocations_for id ins s = 0.
Proof.
  revert s. induction ins as [|i ins IH]; intros s Hs Hknown; [by cbn|].
  apply quiet_cons in Hs as [Hi Hs].
  rewrite run_cons. cbn [invocations_for].
  destruct (session_step s i Hi)
    as [(Hm & Hinv & Hk) | (k & ms & rest & device & -> & Hts & Hget & Hdev & Hm & Hinv)].
  - destruct (IH (step s i) Hs) as [Hc Hz]; [by rewrite Hm|].
    rewrite Hc, Hz, Hm, Hinv, Nat.sub_diag.
    split; [reflexivity|]. destruct i, (timers s) as [|[? ?] ?]; try reflexivity.
    by destruct (String.eqb _ _).
  - assert (Hne : String.eqb (continuation_id k) id = false).
    { destruct (String.eqb_spec (continuation_id k) id) as [Heq|]; [|reflexivity].
      rewrite Heq in Hget. rewrite Hget in Hknown. by destruct Hknown. }
    destruct (IH (step s TimerFires) Hs) as [Hc Hz].
    { rewrite Hm. by apply Obj_get_app_known. }
    rewrite Hc, Hz, Hm, Hinv, length_app, Obj_count_app, Obj_count_singleton, Hts, Hne.
    split; lia.
Qed.

(** An identifier that reads as nothing gets one entry and one
    invocation when a handler for it completes with a mapped record,
    and none before. *)
Lemma fresh_once ins s id :
  stop_lines (run ins s) = stop_lines s ->
  Obj.get (discoveredDevicesMap s) id = None ->
  (In id (continuation_id <$> List.filter maps (completed ins s)) ->
   Obj.count id (discoveredDevicesMap (run ins s)) = 1 /\ invocations_for id ins s = 1) /\
  (~ In id (continuation_id <$> List.filter maps (completed ins s)) ->
   Obj.count id (discoveredDevicesMap (run ins s)) = 0 /\ invocations_for id ins s = 0).
Proof.
  revert s. induction ins as [|i ins IH]; intros s Hs Hfresh.
  { cbn. split; [tauto|]. intros _. split; [|reflexivity].
    by apply Obj_get_None_count. }
  apply quiet_cons in Hs as [Hi Hs].
  rewrite run_cons. cbn [invocations_for completed].
  rewrite List.filter_app, fmap_app.
  destruct (session_step s i Hi)
    as [(Hm & Hinv & Hk) | (k & ms & rest & device & -> & Hts & Hget & Hdev & Hm & Hinv)].
  - assert (Hhead : continuation_id <$> List.filter maps
                      match i, timers s with
                      | TimerFires, (_, k) :: _ => [k]
                      | _, _ => []
                      end = [] \/
                    exists ms k rest, i = TimerFires /\ timers s = (ms, k) :: rest /\
                      maps k = true /\
                      String.eqb (continuation_id k) id = false).
    { destruct i; auto. destruct (timers s) as [|[ms k] rest] eqn:Hts; auto.
      cbn [List.filter]. destruct (maps k) eqn:Hmaps; auto.
      right. exists ms, k, rest.
      split; [reflexivity|]. split; [reflexivity|]. split; [exact Hmaps|].
      destruct (String.eqb_spec (continuation_id k) id) as [Heq|]; [|reflexivity].
      destruct (Hk k ms rest eq_refl eq_refl) as [[v Hv]|Hno]; congruence. }
    destruct (IH (step s i) Hs) as [IH1 IH0]; [by rewrite Hm|].
    rewrite Hinv, Nat.sub_diag.
    replace (match i with
             | TimerFires => _ | _ => 0 end) with 0
      by (destruct i, (timers s) as [|[? ?] ?]; try reflexivity;
          by destruct (String.eqb _ _)).
    destruct Hhead as [Hnil | (ms & k & rest & -> & Hts & Hmaps & Hne)].
    + rewrite Hnil. cbn [app].
      split; intros Hin; [apply IH1 | apply IH0]; exact Hin.
    + rewrite Hts. cbn [List.filter]. rewrite Hmaps. cbn [app fmap list_fmap].
      split; intros Hin.
      * apply IH1. destruct Hin as [Heq|Hin]; [|exact Hin].
        subst id. rewrite String.eqb_refl in Hne. discriminate.
      * apply IH0. intros Hin'. apply Hin. right. exact Hin'.
  - assert (Hmaps : maps k = true) by (unfold maps; by rewrite Hdev).
    rewrite Hts, Hinv, length_app. cbn [List.filter]. rewrite Hmaps.
    cbn [length app fmap list_fmap].
    destruct (String.eqb_spec (continuation_id k) id) as [Heq|Hne].
    + destruct (known_stays_known ins (step s TimerFires) id Hs) as [Hc Hz].
      { rewrite Hm, Obj_get_app_fresh, Heq, String.eqb_refl by exact Hfresh. eauto. }
      rewrite Hc, Hz, Hm, Obj_count_app, Obj_count_singleton, Heq, String.eqb_refl.
      rewrite (Obj_get_None_count _ _ Hfresh).
      split; [intros _; split; lia|]. intros Hnot. exfalso. apply Hnot. by left.
    + destruct (IH (step s TimerFires) Hs) as [IH1 IH0].
      { rewrite Hm, Obj_get_app_fresh by exact Hfresh.
        destruct (String.eqb_spec (continuation_id k) id); [contradiction | reflexivity]. }
      split; intros Hin.
      * apply IH1. destruct Hin as [Heq|Hin]; [contradiction | exact Hin].
      * apply IH0. intros Hin'. apply Hin. by right.
Qed.

(** Every invocation goes with one new entry of the map. *)
Lemma session_invocations_entries ins s :
  stop_lines (run ins s) = stop_lines s ->
  length (invocations (run ins s)) + length (discoveredDevicesMap s) =
  length (invocations s) + length (discoveredDevicesMap (run ins s)).
Proof.
  revert s. induction ins as [|i ins IH]; intros s Hs; [cbn; lia|].
  apply quiet_cons in Hs as [Hi Hs].
  rewrite run_cons. specialize (IH (step s i) Hs).
  destruct (session_step s i Hi)
    as [(Hm & Hinv & _) | (k & ms & rest & device & -> & _ & _ & _ & Hm & Hinv)];
    rewrite Hm, Hinv in IH; rewrite ?length_app in IH; cbn [length] in IH; lia.
Qed.



End Session.

(** ** The two handlers side by side *)

Section Handlers.

Implicit Types (s : State) (k : Continuation) (i : Input) (ins : list Input).

Lemma continuation_id_arguments k :
  continuation_id k = DeviceInformation.id (fst (continuation_arguments k)).
Proof. by destruct k. Qed.

(** What a handler leaves in the map and in the record of invocations
    depends on its arguments only, not on which handler it is. *)
Lemma resume_by_arguments k s :
  let '(comDevice, callback) := continuation_arguments k in
  let id := DeviceInformation.id comDevice in
  (discoveredDevicesMap (resume k s), invocations (resume k s)) =
  match Obj.get (discoveredDevicesMap s) id,
        getDeviceFromProperties (DeviceInformation.properties comDevice) with
  | None, Returns device =>
      let m := discoveredDevicesMap s ++ [(id, device)] in
      (m, invocations s ++ [(callback, Obj.values m)])
  | _, _ => (discoveredDevicesMap s, invocations s)
  end.
Proof.
  destruct (continuation_arguments k) as [comDevice callback] eqn:Hargs. cbn zeta.
  assert (Hid : continuation_id k = DeviceInformation.id comDevice)
    by (rewrite continuation_id_arguments, Hargs; reflexivity).
  assert (Hdev : continuation_device k =
                 getDeviceFromProperties (DeviceInformation.properties comDevice))
    by (unfold continuation_device; by rewrite Hargs).
  rewrite <- Hid, <- Hdev.
  destruct (resume_cases k s) as [[-> [[m Hget]|Hmaps]]|(device & Hget & Hdevice)].
  - by rewrite Hget.
  - unfold maps in Hmaps.
    destruct (Obj.get _ _), (continuation_device k); try discriminate; reflexivity.
  - destruct (resume_fresh k s device Hget Hdevice) as (Hm & Hinv & _).
    rewrite Hm, Hinv, Hget, Hdevice, Hargs. reflexivity.
Qed.

(** The console is where the two handlers differ. *)
Lemma resume_console (comDevice : DeviceInformation.t) (callback : Callback) s device :
  Obj.get (discoveredDevicesMap s) (DeviceInformation.id comDevice) = None ->
  getDeviceFromProperties (DeviceInformation.properties comDevice) = Returns device ->
  console (resume (AfterDelayAdded comDevice callback) s) =
    console s ++ [LogDeviceAdded (DeviceInformation.id comDevice)] /\
  console (resume (AfterDelayUpdated comDevice callback) s) =
    console s ++ [LogDeviceUpdated (DeviceInformation.id comDevice)].
Proof. intros Hget Hdevice. unfold resume. rewrite Hget, Hdevice. split; reflexivity. Qed.

Lemma resume_same_but_log k1 k2 s1 s2 :
  continuation_arguments k1 = continuation_arguments k2 ->
  same_but_log s1 s2 -> same_but_log (resume k1 s1) (resume k2 s2).
Proof.
  intros Hargs (Hh & Hm & Hc & Hw & Ht & Hi).
  pose proof (resume_by_arguments k1 s1) as H1.
  pose proof (resume_by_arguments k2 s2) as H2.
  rewrite Hargs, Hm, Hi in H1. destruct (continuation_arguments k2) as [comDevice callback].
  cbn zeta in *. rewrite <- H2 in H1. injection H1 as Hm' Hi'.
  unfold same_but_log.
  destruct (resume_frame k1 s1) as (-> & -> & -> & ->).
  destruct (resume_frame k2 s2) as (-> & -> & -> & ->).
  repeat split; assumption.
Qed.

Lemma timer_fires_same_but_log s1 s2 :
  same_but_log s1 s2 -> same_but_log (timer_fires s1) (timer_fires s2).
Proof.
  intros Hsim. pose proof Hsim as (Hh & Hm & Hc & Hw & Ht & Hi).
  unfold timer_fires.
  destruct (timers s1) as [|[ms1 k1] rest1] eqn:Ht1,
           (timers s2) as [|[ms2 k2] rest2] eqn:Ht2; try discriminate; [exact Hsim|].
  cbn in Ht. injection Ht as Hms Hargs Hrest.
  apply resume_same_but_log; [exact Hargs|].
  destruct s1, s2; cbn in *. repeat split; assumption.
Qed.

Lemma stop_same_but_log s1 s2 :
  same_but_log s1 s2 ->
  same_but_log (snd (stopListeningForDevices s1)) (snd (stopListeningForDevices s2)).
Proof.
  intros Hsim. pose proof Hsim as (Hh & Hm & Hc & Hw & Ht & Hi).
  rewrite !stop_effect, Hh. destruct (DeviceWatcher s2); [|exact Hsim].
  cbn. rewrite Hw, Hc. repeat split; assumption.
Qed.

Lemma call_listener_same_but_log w n (l : Listener) s1 s2 :
  same_but_log s1 s2 ->
  same_but_log (call_listener w n s1 l) (call_listener w n s2 l).
Proof.
  intros Hsim. pose proof Hsim as (Hh & Hm & Hc & Hw & Ht & Hi).
  destruct l as [[|]| |], n; cbn [call_listener negb]; try exact Hsim.
  - apply stop_same_but_log. exact Hsim.
  - unfold onDeviceAdded, handleDeviceAdded, delay. rewrite Hc.
    repeat split; try assumption.
    unfold set_timers, timers at 1 3. by rewrite !fmap_app, Ht.
  - unfold onDeviceUpdated, handleDeviceUpdated, delay. rewrite Hc.
    repeat split; try assumption.
    unfold set_timers, timers at 1 3. by rewrite !fmap_app, Ht.
Qed.

Lemma raise_same_but_log w n s1 s2 :
  same_but_log s1 s2 -> same_but_log (raise w n s1) (raise w n s2).
Proof.
  intros Hsim. pose proof Hsim as (_ & _ & _ & Hw & _).
  unfold raise. rewrite Hw. destruct (watchers s2 !! w) as [watcher|]; [|exact Hsim].
  destruct (Watcher.running watcher); [|exact Hsim].
  generalize (Watcher.listeners watcher) as ls. intros ls.
  revert s1 s2 Hsim Hw. induction ls as [|l ls IH]; intros s1 s2 Hsim Hw; [exact Hsim|].
  cbn. pose proof (call_listener_same_but_log w n l s1 s2 Hsim) as Hsim'.
  apply IH; [exact Hsim' | by destruct Hsim' as (_ & _ & _ & Hw' & _)].
Qed.

Lemma step_same_but_log i s1 s2 :
  same_but_log s1 s2 -> same_but_log (step s1 i) (step s2 i).
Proof.
  intros Hsim. destruct i; cbn [step].
  - by apply raise_same_but_log.
  - by apply timer_fires_same_but_log.
  - destruct Hsim as (Hh & Hm & Hc & Hw & Ht & Hi).
    rewrite !start_effect. cbn. rewrite Hw. repeat split; assumption.
  - by apply stop_same_but_log.
Qed.

Lemma run_same_but_log ins s1 s2 :
  same_but_log s1 s2 -> same_but_log (run ins s1) (run ins s2).
Proof.
  revert s1 s2. induction ins as [|i ins IH]; intros s1 s2 Hsim; [exact Hsim|].
  rewrite !run_cons. apply IH. by apply step_same_but_log.
Qed.

End Handlers.

(** ** The property mapping: the stated properties *)

Section PropertyMappingClaims.

Implicit Types (properties : gmap string PropertyValue).

(** C6, as stated, fails: a bag that holds [null] under the address key
    has its host name present, and the mapping throws where it reads
    the length of the address value, so there is no mapped record. *)
Lemma null_address_counterexample :
  let properties : gmap string PropertyValue :=
    {[ HOSTNAME_PROPERTY := PString "printer-c.local";
       IPADDRESS_PROPERTY := PNull ]} in
  properties !! HOSTNAME_PROPERTY = Some (PString "printer-c.local") /\
  properties !! IPADDRESS_PROPERTY = Some PNull /\
  getDeviceFromProperties properties = Throws TypeError /\
  forall r, getDeviceFromProperties properties <> Returns r.
Proof.
  intros properties.
  assert (Hthrows : getDeviceFromProperties properties = Throws TypeError)
    by (by apply (getDeviceFromProperties_throws properties PNull)).
  split; [reflexivity|]. split; [reflexivity|]. split; [exact Hthrows|].
  intros r. rewrite Hthrows. discriminate.
Qed.

(** C6, amended. For a bag whose address value, when there is one, is
    not [null] or [undefined], the mapping returns a record, and each
    of the six well-known keys is copied unchanged: the field of the
    record is the bag's value when the key is present and is unset when
    the key is absent. *)
Theorem well_known_keys_copied properties :
  addresses_readable properties ->
  exists r, getDeviceFromProperties properties = Returns r /\
    hostName r = properties !! HOSTNAME_PROPERTY /\
    serviceName r = properties !! SERVICENAME_PROPERTY /\
    instanceName r = properties !! INSTANCENAME_PROPERTY /\
    ipAddresses r = properties !! IPADDRESS_PROPERTY /\
    portNumber r = properties !! PORTNUMBER_PROPERTY /\
    textAttributes r = properties !! TEXTATTRIBUTES_PROPERTY.
Proof. apply getDeviceFromProperties_fields. Qed.

Lemma well_known_keys_copied_witness :
  addresses_readable (DeviceInformation.properties printer_a) /\
  exists r, getDeviceFromProperties (DeviceInformation.properties printer_a) = Returns r /\
    hostName r = DeviceInformation.properties printer_a !! HOSTNAME_PROPERTY /\
    serviceName r = DeviceInformation.properties printer_a !! SERVICENAME_PROPERTY /\
    instanceName r = DeviceInformation.properties printer_a !! INSTANCENAME_PROPERTY /\
    ipAddresses r = DeviceInformation.properties printer_a !! IPADDRESS_PROPERTY /\
    portNumber r = DeviceInformation.properties printer_a !! PORTNUMBER_PROPERTY /\
    textAttributes r = DeviceInformation.properties printer_a !! TEXTATTRIBUTES_PROPERTY.
Proof.
  assert (Hreadable : addresses_readable (DeviceInformation.properties printer_a)).
  { intros value Hvalue.
    assert (Hip : DeviceInformation.properties printer_a !! IPADDRESS_PROPERTY =
                  Some (PStringArray ["192.168.1.5"; "fe80::1"])) by reflexivity.
    rewrite Hip in Hvalue. injection Hvalue as <-. reflexivity. }
  split; [exact Hreadable|].
  exact (well_known_keys_copied (DeviceInformation.properties printer_a) Hreadable).
Defined.

(** C1. With a non-empty address list in the bag, the mapping returns a
    record whose [ipAddresses] is that list; entry 0 goes to
    [ipv4Address] when it passes the IPv4 test and to [ipv6Address]
    otherwise, and a second entry, when there is one, is what
    [ipv6Address] holds in the end; in particular for the three lists
    of the specification. *)
Theorem address_list_classified properties (entry0 : string) (rest : list string) :
  properties !! IPADDRESS_PROPERTY = Some (PStringArray (entry0 :: rest)) ->
  exists r, getDeviceFromProperties properties = Returns r /\
  ipAddresses r = Some (PStringArray (entry0 :: rest)) /\
  ipv4Address r =
    (if Regex.test ipv4Pattern entry0 then Some (PString entry0) else None) /\
  ipv6Address r =
    match rest with
    | entry1 :: _ => Some (PString entry1)
    | [] => if Regex.test ipv4Pattern entry0 then None else Some (PString entry0)
    end /\
  (entry0 :: rest = ["192.168.1.5"] ->
   ipv4Address r = Some (PString "192.168.1.5") /\ ipv6Address r = None) /\
  (entry0 :: rest = ["fe80::1"] ->
   ipv6Address r = Some (PString "fe80::1") /\ ipv4Address r = None) /\
  (entry0 :: rest = ["10.0.0.1"; "fe80::2"] ->
   ipv4Address r = Some (PString "10.0.0.1") /\
   ipv6Address r = Some (PString "fe80::2")).
Proof.
  intros Hip.
  destruct (getDeviceFromProperties_addresses properties _ Hip) as (r & Hr & Ha & H4 & H6).
  exists r. split; [exact Hr|].
  assert (H6' : ipv6Address r =
    match rest with
    | entry1 :: _ => Some (PString entry1)
    | [] => if Regex.test ipv4Pattern entry0 then None else Some (PString entry0)
    end) by (rewrite H6; destruct rest; reflexivity).
  refine (conj Ha (conj H4 (conj H6' (conj _ (conj _ _)))));
    intros [= -> ->]; rewrite H4, H6'; split; reflexivity.
Qed.

Lemma address_list_classified_witness :
  exists r,
    getDeviceFromProperties
      {[ IPADDRESS_PROPERTY := PStringArray ["10.0.0.1"; "fe80::2"] ]} = Returns r /\
    ipAddresses r = Some (PStringArray ["10.0.0.1"; "fe80::2"]) /\
    ipv4Address r = Some (PString "10.0.0.1") /\
    ipv6Address r = Some (PString "fe80::2").
Proof.
  assert (Hip : ({[ IPADDRESS_PROPERTY := PStringArray ["10.0.0.1"; "fe80::2"] ]}
                   : gmap string PropertyValue) !! IPADDRESS_PROPERTY =
                Some (PStringArray ["10.0.0.1"; "fe80::2"])) by reflexivity.
  destruct (address_list_classified _ _ _ Hip) as (r & Hr & Ha & _ & _ & _ & _ & H).
  destruct (H eq_refl) as [H4 H6].
  exists r. split; [exact Hr|]. split; [exact Ha | split; [exact H4 | exact H6]].
Defined.

(** C10. An empty address list is stored as such and leaves both
    convenience fields unset. *)
Theorem empty_address_list properties :
  properties !! IPADDRESS_PROPERTY = Some (PStringArray []) ->
  exists r, getDeviceFromProperties properties = Returns r /\
  ipAddresses r = Some (PStringArray []) /\
  ipv4Address r = None /\ ipv6Address r = None.
Proof.
  intros Hip. exact (getDeviceFromProperties_addresses properties [] Hip).
Qed.

Lemma empty_address_list_witness :
  exists r,
    getDeviceFromProperties
      {[ IPADDRESS_PROPERTY := PStringArray [];
         HOSTNAME_PROPERTY := PString "printer.local" ]} = Returns r /\
    ipAddresses r = Some (PStringArray []) /\
    ipv4Address r = None /\ ipv6Address r = None.
Proof.
  apply (empty_address_list
           {[ IPADDRESS_PROPERTY := PStringArray [];
              HOSTNAME_PROPERTY := PString "printer.local" ]}).
  reflexivity.
Defined.

(** C9, as stated, fails: with an IPv6 address in front of an IPv4
    address the record has no [ipv4Address] and its [ipv6Address] is
    the IPv4 entry. *)
Lemma first_match_counterexample :
  exists r,
    getDeviceFromProperties
      {[ IPADDRESS_PROPERTY := PStringArray ["fe80::1"; "10.0.0.1"] ]} = Returns r /\
    address_list r = ["fe80::1"; "10.0.0.1"] /\
    first_ipv4 (address_list r) = Some "10.0.0.1" /\
    ipv4Address r = None /\
    first_non_ipv4 (address_list r) = Some "fe80::1" /\
    ipv6Address r = Some (PString "10.0.0.1") /\
    ~ convenience_by_first_match r.
Proof.
  assert (Hip : ({[ IPADDRESS_PROPERTY := PStringArray ["fe80::1"; "10.0.0.1"] ]}
                   : gmap string PropertyValue) !! IPADDRESS_PROPERTY =
                Some (PStringArray ["fe80::1"; "10.0.0.1"])) by reflexivity.
  destruct (getDeviceFromProperties_addresses _ _ Hip) as (r & Hr & Ha & H4 & H6).
  exists r. split; [exact Hr|].
  assert (Hl : address_list r = ["fe80::1"; "10.0.0.1"])
    by (unfold address_list; rewrite Ha; reflexivity).
  unfold convenience_by_first_match. rewrite Hl, H4, H6.
  repeat split; try reflexivity.
  intros [Hbad _]. discriminate Hbad.
Qed.

Lemma find_none_iff (f : string -> bool) (l : list string) :
  List.find f l = None <-> Forall (fun a => f a = false) l.
Proof.
  induction l as [|a l IH]; cbn.
  - split; [intros _; apply Forall_nil_2 | reflexivity].
  - rewrite Forall_cons. destruct (f a); [|rewrite IH; tauto].
    split; [discriminate | intros [? _]; discriminate].
Qed.

Lemma find_some_holds (f : string -> bool) (l : list string) a :
  List.find f l = Some a -> f a = true.
Proof.
  induction l as [|b l IH]; cbn; [discriminate|].
  destruct (f b) eqn:Hb; [intros [= <-]; exact Hb | exact IH].
Qed.

(** C9, amended. For a bag whose address property is absent or a list
    [l] of strings the mapping returns a record, and its convenience
    fields go by position: [ipv4Address] is entry 0 when that passes
    the IPv4 test and is unset otherwise; [ipv6Address] is entry 1 when
    there is one, else entry 0 when that fails the test, else unset.
    They are the first entry that passes the test and the first that
    does not exactly when the list has at most one entry, or entry 0
    passes and entry 1 fails, or entry 0 fails, entry 1 repeats it and
    no later entry passes. *)
Theorem convenience_fields_by_position properties (l : list string) :
  properties !! IPADDRESS_PROPERTY = Some (PStringArray l) \/
  (properties !! IPADDRESS_PROPERTY = None /\ l = []) ->
  exists r, getDeviceFromProperties properties = Returns r /\
    address_list r = l /\
    ipv4Address r =
      match l with
      | entry0 :: _ =>
          if Regex.test ipv4Pattern entry0 then Some (PString entry0) else None
      | [] => None
      end /\
    ipv6Address r =
      match l with
      | _ :: entry1 :: _ => Some (PString entry1)
      | [entry0] =>
          if Regex.test ipv4Pattern entry0 then None else Some (PString entry0)
      | [] => None
      end /\
    (convenience_by_first_match r <-> first_match_layout l).
Proof.
  intros Hbag.
  assert (Hr : exists r, getDeviceFromProperties properties = Returns r /\
    address_list r = l /\
    ipv4Address r =
      match l with
      | entry0 :: _ =>
          if Regex.test ipv4Pattern entry0 then Some (PString entry0) else None
      | [] => None
      end /\
    ipv6Address r =
      match l with
      | _ :: entry1 :: _ => Some (PString entry1)
      | [entry0] =>
          if Regex.test ipv4Pattern entry0 then None else Some (PString entry0)
      | [] => None
      end).
  { destruct Hbag as [Hip | [Hnone ->]].
    - destruct (getDeviceFromProperties_addresses properties l Hip) as (r & Hr & Ha & H46).
      exists r. split; [exact Hr|]. split; [|exact H46].
      unfold address_list. by rewrite Ha.
    - destruct (getDeviceFromProperties_no_addresses properties Hnone)
        as (r & Hr & Ha & H4 & H6).
      exists r. split; [exact Hr|]. split; [|by split].
      unfold address_list. by rewrite Ha. }
  destruct Hr as (r & Hr & Hl & H4 & H6). exists r.
  split; [exact Hr|]. split; [exact Hl|]. split; [exact H4|]. split; [exact H6|].
  unfold convenience_by_first_match, first_ipv4, first_non_ipv4.
  rewrite Hl, H4, H6.
  destruct l as [|entry0 [|entry1 rest]]; cbn [List.find first_match_layout].
  - split; [trivial | intros _; split; reflexivity].
  - destruct (Regex.test ipv4Pattern entry0); cbn;
      (split; [trivial | intros _; split; reflexivity]).
  - destruct (Regex.test ipv4Pattern entry0) eqn:H0; cbn [negb].
    + destruct (Regex.test ipv4Pattern entry1) eqn:H1; cbn [negb].
      * split.
        -- intros [_ Hnon]. cbn in Hnon. symmetry in Hnon.
           destruct (List.find _ rest) as [a|] eqn:Hfind; [|discriminate].
           injection Hnon as ->. apply find_some_holds in Hfind.
           rewrite H1 in Hfind. discriminate.
        -- intros [[_ Hbad]|[Hbad _]]; discriminate.
      * split; [intros _; left; by split | intros _; split; reflexivity].
    + split.
      * intros [Hfirst Hnon]. cbn in Hnon. injection Hnon as Heq. subst entry1.
        right. split; [reflexivity|]. split; [reflexivity|].
        rewrite H0 in Hfirst. cbn in Hfirst. symmetry in Hfirst.
        destruct (List.find _ rest) eqn:Hfind; [discriminate|].
        by apply find_none_iff in Hfind.
      * intros [[Hbad _]|(_ & -> & Hrest)]; [discriminate|].
        rewrite H0. apply find_none_iff in Hrest. rewrite Hrest.
        split; reflexivity.
Qed.

Lemma convenience_fields_by_position_witness :
  first_match_layout ["10.0.0.1"; "fe80::2"] /\
  exists r,
    getDeviceFromProperties
      {[ IPADDRESS_PROPERTY := PStringArray ["10.0.0.1"; "fe80::2"] ]} = Returns r /\
    ipv4Address r = Some (PString "10.0.0.1") /\
    ipv6Address r = Some (PString "fe80::2") /\
    convenience_by_first_match r.
Proof.
  assert (Hl : first_match_layout ["10.0.0.1"; "fe80::2"])
    by (left; split; reflexivity).
  split; [exact Hl|].
  assert (Hip : ({[ IPADDRESS_PROPERTY := PStringArray ["10.0.0.1"; "fe80::2"] ]}
                   : gmap string PropertyValue) !! IPADDRESS_PROPERTY =
                Some (PStringArray ["10.0.0.1"; "fe80::2"])) by reflexivity.
  destruct (convenience_fields_by_position _ _ (or_introl Hip))
    as (r & Hr & _ & H4 & H6 & Hiff).
  exists r. split; [exact Hr|]. split; [exact H4|]. split; [exact H6|].
  apply Hiff. exact Hl.
Defined.

End PropertyMappingClaims.

(** ** One-shot enumeration: the stated properties *)

Section Enumeration.

Implicit Types (s : State) (comDevices : list DeviceInformation.t).

(** The loop maps the devices in order and stops at the first one whose
    mapping throws. *)
Lemma findAll_loop_spec comDevices fuel i services :
  i + fuel = length comDevices ->
  exists mapped,
    fst (findAll_loop comDevices i fuel services) = services ++ mapped /\
    Forall2 (fun comDevice r =>
               getDeviceFromProperties (DeviceInformation.properties comDevice) = Returns r)
            (take (length mapped) (drop i comDevices)) mapped /\
    match snd (findAll_loop comDevices i fuel services) with
    | None => i + length mapped = length comDevices
    | Some error =>
        exists comDevice, comDevices !! (i + length mapped) = Some comDevice /\
          getDeviceFromProperties (DeviceInformation.properties comDevice) = Throws error
    end.
Proof.
  revert i services.
  induction fuel as [|fuel IH]; intros i services Hlen; cbn [findAll_loop].
  - exists []. cbn. rewrite app_nil_r. split; [reflexivity|].
    split; [rewrite take_0; constructor | lia].
  - destruct (Nat.ltb_spec i (length comDevices)) as [Hlt|Hge]; [|lia].
    destruct (lookup_lt_is_Some_2 comDevices i Hlt) as [comDevice Hi].
    rewrite Hi.
    destruct (getDeviceFromProperties (DeviceInformation.properties comDevice))
      as [device|error] eqn:Hdevice.
    + destruct (IH (S i) (services ++ [device])) as (mapped & Hfst & Hall & Hsnd); [lia|].
      exists (device :: mapped). rewrite Hfst, <- app_assoc.
      split; [reflexivity|]. split.
      * rewrite (drop_S _ _ _ Hi). cbn. constructor; [exact Hdevice | exact Hall].
      * cbn [length]. replace (i + S (length mapped)) with (S i + length mapped) by lia.
        exact Hsnd.
    + exists []. cbn. rewrite app_nil_r, Nat.add_0_r. split; [reflexivity|].
      split; [rewrite take_0; constructor | eauto].
Qed.

(** C4. When the platform's enumeration fails, the promise resolves to
    the empty list, as it does for an enumeration that finds nothing, and
    the error goes to the console; whatever the platform does, the
    promise is not rejected. *)
Theorem findAll_platform_failure (error : PlatformError) s :
  fst (findAllDevicesAsync (Failed error) s) = Resolved [] /\
  fst (findAllDevicesAsync (Failed error) s) =
    fst (findAllDevicesAsync (Completed []) s) /\
  console (snd (findAllDevicesAsync (Failed error) s)) =
    console s ++ [LogErrorDiscovering (PlatformFailure error)] /\
  forall platform error',
    fst (findAllDevicesAsync platform s) <> Rejected error'.
Proof.
  repeat split. intros [comDevices|error0] error'; unfold findAllDevicesAsync;
    [|discriminate].
  by destruct (findAll_loop comDevices 0 (length comDevices) []) as [services [thrown|]].
Qed.

End Enumeration.

(** ** The listening session: the stated properties *)

Section Listening.

Implicit Types (s : State) (i : Input) (ins : list Input) (w : nat).

(** C2, at the input where it fails: a second call while the first
    watcher runs resolves to [true] as well and starts a second watcher
    next to the first. *)
Theorem start_while_running :
  let s1 := snd (startListeningForDevicesAsync (UserCallback 1) None initial) in
  let second := startListeningForDevicesAsync (UserCallback 2) None s1 in
  DeviceWatcher s1 = Some 0 /\
  watcher_status 0 s1 = Some Started /\
  fst second = Resolved true /\
  DeviceWatcher (snd second) = Some 1 /\
  watcher_status 0 (snd second) = Some Started /\
  watcher_status 1 (snd second) = Some Started.
Proof. repeat split. Qed.

(** What the same defect does to a session that does not listen for
    updates: once a second call has replaced the reference, the end of
    the first watcher's enumeration stops the second watcher and leaves
    the first one running. *)
Lemma superseded_watcher_keeps_running :
  let s1 := snd (startListeningForDevicesAsync (UserCallback 1) None initial) in
  let s2 := snd (startListeningForDevicesAsync (UserCallback 2) None s1) in
  let s3 := raise 0 EnumerationCompleted s2 in
  watcher_status 0 s3 = Some Started /\
  watcher_status 1 s3 = Some Stopped /\
  DeviceWatcher s3 = None.
Proof. repeat split. Qed.

(** C5. Stopping without a watcher returns [false] and changes nothing;
    stopping with one returns [true], stops that watcher, clears the
    reference and empties the map. *)
Theorem stop_listening s :
  (DeviceWatcher s = None -> stopListeningForDevices s = (false, s)) /\
  (forall w, DeviceWatcher s = Some w ->
     let s' := snd (stopListeningForDevices s) in
     fst (stopListeningForDevices s) = true /\
     discoveredDevicesMap s' = [] /\
     DeviceWatcher s' = None /\
     (is_Some (watchers s !! w) -> watcher_status w s' = Some Stopped)).
Proof.
  rewrite stop_effect. split.
  - by intros ->.
  - intros w ->. cbn. repeat split.
    intros [watcher Hw]. unfold watcher_status. cbn.
    by rewrite list_lookup_alter_eq, Hw.
Qed.

Lemma stop_listening_witness :
  let s1 := snd (startListeningForDevicesAsync (UserCallback 1) None initial) in
  stopListeningForDevices initial = (false, initial) /\
  fst (stopListeningForDevices s1) = true /\
  discoveredDevicesMap (snd (stopListeningForDevices s1)) = [] /\
  DeviceWatcher (snd (stopListeningForDevices s1)) = None /\
  watcher_status 0 (snd (stopListeningForDevices s1)) = Some Stopped.
Proof.
  split.
  - exact (proj1 (stop_listening initial) eq_refl).
  - pose proof (proj2 (stop_listening
                         (snd (startListeningForDevicesAsync (UserCallback 1) None initial)))
                  0 eq_refl) as (Hr & Hm & Hh & Hst).
    split; [exact Hr|]. split; [exact Hm|]. split; [exact Hh|].
    apply Hst. eexists. reflexivity.
Defined.

(** C7. The two handlers wait for the same delay and then make the same
    transition: from any state they leave the same map and the same
    invocations, at once and after whatever happens next. *)
Theorem added_and_updated_agree (_comDevice : DeviceInformation.t)
    (callback : Callback) s :
  let sa := handleDeviceAdded _comDevice callback s in
  let su := handleDeviceUpdated _comDevice callback s in
  let ka := AfterDelayAdded _comDevice callback in
  let ku := AfterDelayUpdated _comDevice callback in
  timers sa = timers s ++ [(DEVICE_INFORMATION_PARSING_DELAY, ka)] /\
  timers su = timers s ++ [(DEVICE_INFORMATION_PARSING_DELAY, ku)] /\
  discoveredDevicesMap (resume ka s) = discoveredDevicesMap (resume ku s) /\
  invocations (resume ka s) = invocations (resume ku s) /\
  forall ins,
    discoveredDevicesMap (run ins sa) = discoveredDevicesMap (run ins su) /\
    invocations (run ins sa) = invocations (run ins su).
Proof.
  cbn zeta. repeat split.
  - destruct (resume_same_but_log (AfterDelayAdded _comDevice callback)
                (AfterDelayUpdated _comDevice callback) s s eq_refl)
      as (_ & Hm & _); [repeat split | exact Hm].
  - destruct (resume_same_but_log (AfterDelayAdded _comDevice callback)
                (AfterDelayUpdated _comDevice callback) s s eq_refl)
      as (_ & _ & _ & _ & _ & Hi); [repeat split | exact Hi].
  - apply (run_same_but_log ins). repeat split.
    unfold handleDeviceAdded, handleDeviceUpdated, delay, set_timers, timers.
    by rewrite !fmap_app.
  - apply (run_same_but_log ins). repeat split.
    unfold handleDeviceAdded, handleDeviceUpdated, delay, set_timers, timers.
    by rewrite !fmap_app.
Qed.

(** C3, as stated, fails in three ways.  In a session that does not
    listen for updates, the end of the enumeration empties the map
    while a handler for a device already delivered is waiting, and the
    device is delivered a second time.  A device whose identifier is a
    name that every object inherits is never stored or delivered, and
    neither is a device whose address property is [null]. *)
Lemma deduplication_counterexample :
  let s1 := snd (startListeningForDevicesAsync (UserCallback 1) (Some false) initial) in
  let twice := [Raise 0 (Added printer_a); TimerFires; Raise 0 (Added printer_a);
                Raise 0 EnumerationCompleted; TimerFires] in
  let inherited := [Raise 0 (Added printer_constructor);
                    Raise 0 (Added printer_constructor); TimerFires; TimerFires] in
  let unmapped := [Raise 0 (Added printer_null); Raise 0 (Added printer_null);
                   TimerFires; TimerFires] in
  (invocations_for (DeviceInformation.id printer_a) twice s1 = 2 /\
   invocations (run twice s1) =
     [(UserCallback 1, [record_a]); (UserCallback 1, [record_a])]) /\
  (Obj.count (DeviceInformation.id printer_constructor)
     (discoveredDevicesMap (run inherited s1)) = 0 /\
   invocations_for (DeviceInformation.id printer_constructor) inherited s1 = 0 /\
   timers (run inherited s1) = []) /\
  (Obj.count (DeviceInformation.id printer_null)
     (discoveredDevicesMap (run unmapped s1)) = 0 /\
   invocations_for (DeviceInformation.id printer_null) unmapped s1 = 0 /\
   timers (run unmapped s1) = []).
Proof. vm_compute. repeat split. Qed.

(** C3, amended. As long as the helper does not stop listening, by a
    call or at the end of a scan-only enumeration, and whatever else
    happens: for an identifier that reads as nothing in the map, that
    is, one that is neither stored nor a name every object inherits,
    and however many notifications carry it, if one of them has
    properties that the mapping accepts, then once the delayed handlers
    have completed the map has exactly one entry for the identifier and
    exactly one callback invocation was made for it; every invocation
    goes with one new entry, so a notification for another such
    identifier adds a second entry and one further invocation. *)
Theorem notifications_deduplicated s ins (id : string) :
  stop_lines (run ins s) = stop_lines s ->
  Obj.get (discoveredDevicesMap s) id = None ->
  In id (continuation_id <$> List.filter maps (scheduled ins s)) ->
  timers (run ins s) = [] ->
  let s' := run ins s in
  Obj.count id (discoveredDevicesMap s') = 1 /\
  invocations_for id ins s = 1 /\
  length (invocations s') - length (invocations s) =
    length (discoveredDevicesMap s') - length (discoveredDevicesMap s).
Proof.
  intros Hins Hfresh Hsched Hquiet s'.
  assert (Hdone : In id (continuation_id <$> List.filter maps (completed ins s))).
  { pose proof (session_fifo ins s) as Hfifo.
    rewrite Hquiet in Hfifo. cbn in Hfifo. rewrite app_nil_r in Hfifo.
    rewrite <- Hfifo, List.filter_app, fmap_app. apply in_or_app. by right. }
  destruct (fresh_once ins s id Hins Hfresh) as [Hone _].
  destruct (Hone Hdone) as [Hcount Hinv].
  pose proof (session_invocations_entries ins s Hins) as Htotal.
  fold s' in Hcount, Htotal. repeat split; [exact Hcount | exact Hinv | lia].
Qed.

Lemma notifications_deduplicated_witness :
  let s1 := snd (startListeningForDevicesAsync (UserCallback 1) (Some true) initial) in
  let ins := [Raise 0 (Added printer_a); Raise 0 (Added printer_a);
              Raise 0 EnumerationCompleted; TimerFires; TimerFires;
              Raise 0 (Updated printer_b); TimerFires] in
  let s' := run ins s1 in
  (Obj.count (DeviceInformation.id printer_a) (discoveredDevicesMap s') = 1 /\
   invocations_for (DeviceInformation.id printer_a) ins s1 = 1) /\
  (Obj.count (DeviceInformation.id printer_b) (discoveredDevicesMap s') = 1 /\
   invocations_for (DeviceInformation.id printer_b) ins s1 = 1) /\
  length (discoveredDevicesMap s') = 2 /\
  length (invocations s') = 2.
Proof.
  intros s1 ins s'.
  assert (Hins : stop_lines (run ins s1) = stop_lines s1) by (vm_compute; reflexivity).
  assert (Hquiet : timers (run ins s1) = []) by (vm_compute; reflexivity).
  assert (Ha : Obj.get (discoveredDevicesMap s1) (DeviceInformation.id printer_a) = None)
    by (vm_compute; reflexivity).
  assert (Hb : Obj.get (discoveredDevicesMap s1) (DeviceInformation.id printer_b) = None)
    by (vm_compute; reflexivity).
  assert (Hsa : In (DeviceInformation.id printer_a)
                   (continuation_id <$> List.filter maps (scheduled ins s1)))
    by (vm_compute; left; reflexivity).
  assert (Hsb : In (DeviceInformation.id printer_b)
                   (continuation_id <$> List.filter maps (scheduled ins s1)))
    by (vm_compute; right; right; left; reflexivity).
  destruct (notifications_deduplicated s1 ins _ Hins Ha Hsa Hquiet) as (Hca & Hia & _).
  destruct (notifications_deduplicated s1 ins _ Hins Hb Hsb Hquiet) as (Hcb & Hib & _).
  split; [split; [exact Hca | exact Hia]|].
  split; [split; [exact Hcb | exact Hib]|].
  split; vm_compute; reflexivity.
Defined.

(** C8, at the input where it fails: a session started without
    listening for updates, and a second call to start before the
    platform reports the end of the enumeration.  The signal of the
    session's watcher stops the second watcher; the session's own
    watcher keeps running, and a device it reports afterwards is still
    delivered. *)
Theorem scan_only_session_superseded :
  let s1 := snd (startListeningForDevicesAsync (UserCallback 1) (Some false) initial) in
  let s2 := snd (startListeningForDevicesAsync (UserCallback 2) (Some false) s1) in
  let s3 := step s2 (Raise 0 EnumerationCompleted) in
  let s4 := run [Raise 0 (Added printer_a); TimerFires] s3 in
  watcher_status 0 s1 = Some Started /\
  watcher_status 0 s3 = Some Started /\
  watcher_status 1 s3 = Some Stopped /\
  DeviceWatcher s3 = None /\
  invocations s3 = [] /\
  invocations s4 = [(UserCallback 2, [record_a])].
Proof. vm_compute. repeat split. Qed.

End Listening.

(** ** What holds in every state the helper reaches *)

Section Reachable.

Implicit Types (s : State) (i : Input) (ins : list Input) (w : nat).

Lemma reachable_initial : reachable initial.
Proof. by exists []. Qed.

Lemma reachable_step s i : reachable s -> reachable (step s i).
Proof. intros [ins ->]. exists (ins ++ [i]). by rewrite run_app. Qed.

Lemma reachable_run ins s : reachable s -> reachable (run ins s).
Proof. intros [ins0 ->]. exists (ins0 ++ ins). by rewrite run_app. Qed.

(** A property of the initial state that every input preserves holds in
    every reachable state. *)
Lemma reachable_ind (P : State -> Prop) :
  P initial -> (forall s i, P s -> P (step s i)) -> forall s, reachable s -> P s.
Proof.
  intros Hinit Hstep s [ins ->].
  induction ins as [|i ins IH] using rev_ind; [exact Hinit|].
  rewrite run_app. apply Hstep, IH.
Qed.

Lemma step_reference_started s i : reference_started s -> reference_started (step s i).
Proof.
  intros Hs. destruct (is_start i) eqn:Hi.
  - destruct i; try discriminate. cbn [step]. rewrite start_effect.
    intros w [= <-]. unfold watcher_status. cbn.
    by rewrite lookup_app_r, Nat.sub_diag.
  - destruct (step_quiet_or_stopped s i Hi) as [[Hh Hw]|(h & _ & Hh & _)].
    + intros w Hcur. unfold watcher_status. rewrite Hw. apply Hs. congruence.
    + intros w Hcur. congruence.
Qed.

Lemma step_watchers_set_up s i : watchers_set_up s -> watchers_set_up (step s i).
Proof.
  unfold watchers_set_up. intros Hs. destruct (is_start i) eqn:Hi.
  - destruct i; try discriminate. cbn [step]. rewrite start_effect. cbn.
    apply Forall_app. split; [exact Hs|]. apply Forall_singleton. cbn. eauto.
  - destruct (step_quiet_or_stopped s i Hi) as [[_ ->]|(h & _ & _ & ->)]; [exact Hs|].
    rewrite Forall_lookup in Hs |- *. intros w watcher' Hw'.
    destruct (decide (h = w)) as [->|Hne].
    + rewrite list_lookup_alter_eq in Hw'.
      destruct (watchers s !! w) as [watcher|] eqn:Hw; [|discriminate].
      injection Hw' as <-. destruct (Hs w watcher Hw) as [_ Hl].
      split; [discriminate | exact Hl].
    + rewrite list_lookup_alter_ne in Hw' by exact Hne. by apply (Hs w).
Qed.

End Reachable.

(** ** Further properties of the listening session *)

Section SessionProperties.

Implicit Types (s : State) (k : Continuation) (i : Input) (ins : list Input).
Implicit Types (w : nat) (id : string).

(** In every state the helper reaches, the watcher it refers to, if any,
    exists and is started: the reference never dangles and never
    designates a stopped watcher. *)
Theorem reference_always_started ins : reference_started (run ins initial).
Proof.
  apply (reachable_ind reference_started); [discriminate | | by exists ins].
  intros s i. apply step_reference_started.
Qed.

Lemma reachable_watchers_set_up s : reachable s -> watchers_set_up s.
Proof.
  apply (reachable_ind watchers_set_up); [apply Forall_nil_2|].
  intros s' i. apply step_watchers_set_up.
Qed.

Lemma session_listeners_updates upd :
  existsb (fun l => match l with OnDeviceUpdated => true | _ => false end)
          (session_listeners upd) = upd.
Proof. by destruct upd. Qed.

(** In every state the helper reaches, a notification calls exactly one
    listener: "added" schedules one [handleDeviceAdded] with the current
    callback, "updated" schedules one [handleDeviceUpdated] when the
    watcher listens for updates and is lost otherwise, and the end of the
    enumeration is logged and stops the listening unless the watcher
    listens for updates.  A watcher that is not running, or does not
    exist, changes nothing. *)
Theorem notification_calls_one_listener ins w (comDevice : DeviceInformation.t) :
  let s := run ins initial in
  match watchers s !! w with
  | Some watcher =>
      if Watcher.running watcher then
        raise w (Added comDevice) s = onDeviceAdded comDevice s /\
        raise w (Updated comDevice) s =
          (if listens_for_updates watcher then onDeviceUpdated comDevice s else s) /\
        raise w EnumerationCompleted s =
          (let s' := console_log (LogEnumerationCompleted w) s in
           if listens_for_updates watcher then s'
           else snd (stopListeningForDevices s'))
      else forall n, raise w n s = s
  | None => forall n, raise w n s = s
  end.
Proof.
  intros s.
  assert (Hset : watchers_set_up s) by (apply reachable_watchers_set_up; by exists ins).
  unfold raise. destruct (watchers s !! w) as [watcher|] eqn:Hw; [|reflexivity].
  destruct (Watcher.running watcher); [|reflexivity].
  unfold watchers_set_up in Hset. rewrite Forall_lookup in Hset.
  destruct (Hset w watcher Hw) as [_ [upd Hl]].
  unfold listens_for_updates. rewrite Hl, session_listeners_updates.
  destruct upd; repeat split.
Qed.

(** *** The record of a known identifier *)





(** *** Identifiers that every object inherits *)

Lemma Obj_get_inherited {A} (o : list (string * A)) id :
  Obj.inherited id = true -> is_Some (Obj.get o id).
Proof. intros Hname. unfold Obj.get. rewrite Hname. destruct (Obj.own o id); eauto. Qed.

Lemma step_inherited_name s i id :
  Obj.inherited id = true ->
  Obj.count id (discoveredDevicesMap s) = 0 ->
  Obj.count id (discoveredDevicesMap (step s i)) = 0 /\
  (forall ms k rest, i = TimerFires -> timers s = (ms, k) :: rest ->
     continuation_id k = id -> invocations (step s i) = invocations s).
Proof.
  intros Hname Hcount. destruct i as [w n| | |]; cbn [step].
  - destruct (raise_notified w n s) as (_ & _ & _ & _ & [-> | ->]);
      (split; [done | discriminate]).
  - unfold timer_fires. destruct (timers s) as [|[ms k] rest] eqn:Hts;
      [split; [exact Hcount | discriminate]|].
    destruct (resume_cases k (set_timers rest s)) as [[-> _]|(device & Hget & Hdevice)].
    + split; [by destruct s | intros; by destruct s].
    + assert (Hne : String.eqb (continuation_id k) id = false).
      { destruct (String.eqb_spec (continuation_id k) id) as [Heq|]; [|reflexivity].
        destruct (Obj_get_inherited (discoveredDevicesMap (set_timers rest s)) id Hname)
          as [m Hm]. congruence. }
      destruct (resume_fresh k (set_timers rest s) device Hget Hdevice) as (-> & _).
      split.
      * rewrite Obj_count_app, Obj_count_singleton, Hne.
        replace (discoveredDevicesMap (set_timers rest s)) with (discoveredDevicesMap s)
          by (by destruct s). lia.
      * intros ms' k' rest' _ [= _ <- _] Heq. rewrite Heq, String.eqb_refl in Hne.
        discriminate.
  - rewrite start_effect. split; [exact Hcount | discriminate].
  - rewrite stop_effect. destruct (DeviceWatcher s); (split; [done | discriminate]).
Qed.

(** A device whose identifier is a name that every object inherits from
    [Object.prototype] is never stored and never delivered: whatever
    the helper goes through, the map has no entry for such an
    identifier and no callback invocation is made for it. *)
Theorem inherited_name_never_stored ins id :
  Obj.inherited id = true ->
  Obj.count id (discoveredDevicesMap (run ins initial)) = 0 /\
  invocations_for id ins initial = 0.
Proof.
  intros Hname.
  assert (Hcount : Obj.count id (discoveredDevicesMap initial) = 0) by reflexivity.
  revert Hcount. generalize initial as s.
  induction ins as [|i ins IH]; intros s Hcount; [by split|].
  rewrite run_cons. cbn [invocations_for].
  destruct (step_inherited_name s i id Hname Hcount) as [Hstep Hinv].
  destruct (IH (step s i) Hstep) as [-> ->]. split; [reflexivity|].
  destruct i; try reflexivity. destruct (timers s) as [|[ms k] rest] eqn:Hts; [reflexivity|].
  destruct (String.eqb_spec (continuation_id k) id) as [Heq|]; [|reflexivity].
  rewrite (Hinv ms k rest eq_refl eq_refl Heq). lia.
Qed.

Lemma inherited_name_never_stored_witness :
  let ins := [CallStartListening (UserCallback 1) (Some true);
              Raise 0 (Added printer_constructor); TimerFires;
              Raise 0 (Updated printer_constructor); TimerFires] in
  Obj.count "constructor" (discoveredDevicesMap (run ins initial)) = 0 /\
  invocations_for "constructor" ins initial = 0.
Proof.
  intros ins. exact (inherited_name_never_stored ins "constructor" eq_refl).
Defined.

End SessionProperties.

(** ** What the callback receives *)

Section Deliveries.

Implicit Types (s : State) (k : Continuation) (i : Input) (ins : list Input).
Implicit Types (w : nat) (id : string) (device : IDnssdServiceInstance).

(** A handler that completes for an identifier that reads as nothing,
    with properties that the mapping accepts: the entry it adds and the
    invocation it makes. *)
Lemma timer_fires_fresh s ms k rest device :
  timers s = (ms, k) :: rest ->
  Obj.get (discoveredDevicesMap s) (continuation_id k) = None ->
  continuation_device k = Returns device ->
  let m := discoveredDevicesMap s ++ [(continuation_id k, device)] in
  discoveredDevicesMap (timer_fires s) = m /\
  invocations (timer_fires s) =
    invocations s ++ [(snd (continuation_arguments k), Obj.values m)] /\
  DeviceWatcher (timer_fires s) = DeviceWatcher s /\
  timers (timer_fires s) = rest.
Proof.
  intros Hts Hget Hdevice. unfold timer_fires. rewrite Hts.
  destruct (resume_fresh k (set_timers rest s) device) as (Hm & Hinv & Hh & _ & _ & Ht);
    [destruct s; exact Hget | exact Hdevice |].
  rewrite Hm, Hinv, Hh, Ht. destruct s; auto.
Qed.



(** Stopping does not cancel a handler that is waiting for its delay:
    when it completes after the stop, it finds the map emptied; unless
    its identifier is a name that every object inherits or the mapping
    throws, it stores its device as the only entry and invokes its
    callback with that device alone, while the helper refers to no
    watcher. *)
Theorem handler_completes_after_stop s w ms k rest device :
  DeviceWatcher s = Some w ->
  timers s = (ms, k) :: rest ->
  Obj.inherited (continuation_id k) = false ->
  continuation_device k = Returns device ->
  let s' := timer_fires (snd (stopListeningForDevices s)) in
  discoveredDevicesMap s' = [(continuation_id k, device)] /\
  invocations s' =
    invocations s ++ [(snd (continuation_arguments k), [device])] /\
  DeviceWatcher s' = None.
Proof.
  intros Hcur Hts Hname Hdevice. rewrite stop_effect, Hcur. cbn [snd].
  match goal with |- context [timer_fires ?s0] => set (stopped := s0) end.
  assert (Hget : Obj.get (discoveredDevicesMap stopped) (continuation_id k) = None)
    by (apply Obj_get_None; by split).
  destruct (timer_fires_fresh stopped ms k rest device Hts Hget Hdevice)
    as (Hm & Hinv & Hh & _).
  cbn zeta in *. rewrite Hm, Hinv, Hh.
  change (discoveredDevicesMap stopped) with (@nil (string * IDnssdServiceInstance)).
  cbn [app]. rewrite Obj_values_singleton. auto.
Qed.

Lemma handler_completes_after_stop_witness :
  let s1 := snd (startListeningForDevicesAsync (UserCallback 1) None initial) in
  let s := run [Raise 0 (Added printer_a); TimerFires; Raise 0 (Added printer_b)] s1 in
  let s' := timer_fires (snd (stopListeningForDevices s)) in
  length (discoveredDevicesMap s) = 1 /\
  discoveredDevicesMap s' = [(DeviceInformation.id printer_b, record_b)] /\
  invocations s' = invocations s ++ [(UserCallback 1, [record_b])] /\
  DeviceWatcher s' = None.
Proof.
  intros s1 s s'.
  assert (Hcur : DeviceWatcher s = Some 0) by (vm_compute; reflexivity).
  assert (Hts : timers s = [(DEVICE_INFORMATION_PARSING_DELAY,
                             AfterDelayAdded printer_b (UserCallback 1))])
    by (vm_compute; reflexivity).
  assert (Hname : Obj.inherited (continuation_id (AfterDelayAdded printer_b (UserCallback 1)))
                  = false) by reflexivity.
  split; [vm_compute; reflexivity|].
  exact (handler_completes_after_stop s 0 _ _ [] record_b Hcur Hts Hname printer_b_record).
Defined.

(** A handler delivers to the callback that was current when its
    notification arrived: if another call to start replaces the callback
    while the handler waits, the device still goes to the earlier
    callback.  This is for a device whose identifier reads as nothing
    in the map and whose properties the mapping accepts. *)
Theorem handler_keeps_its_callback s w (upd : bool) (comDevice : DeviceInformation.t)
    (callback' : Callback) (arg : option bool) device :
  watchers s !! w = Some (Watcher.mk Started (session_listeners upd)) ->
  timers s = [] ->
  Obj.get (discoveredDevicesMap s) (DeviceInformation.id comDevice) = None ->
  getDeviceFromProperties (DeviceInformation.properties comDevice) = Returns device ->
  let s1 := raise w (Added comDevice) s in
  let s2 := snd (startListeningForDevicesAsync callback' arg s1) in
  let s3 := timer_fires s2 in
  currentSessionCallback s2 = callback' /\
  invocations s3 =
    invocations s ++
    [(currentSessionCallback s,
      Obj.values (discoveredDevicesMap s ++ [(DeviceInformation.id comDevice, device)]))].
Proof.
  intros Hw Hts Hget Hdevice s1 s2 s3.
  assert (Hs1 : s1 = delay DEVICE_INFORMATION_PARSING_DELAY
                       (AfterDelayAdded comDevice (currentSessionCallback s)) s)
    by (unfold s1; by apply (raise_added_schedules w upd)).
  assert (Hs2 : timers s2 = [(DEVICE_INFORMATION_PARSING_DELAY,
                              AfterDelayAdded comDevice (currentSessionCallback s))] /\
                discoveredDevicesMap s2 = discoveredDevicesMap s /\
                invocations s2 = invocations s /\
                currentSessionCallback s2 = callback').
  { unfold s2. rewrite start_effect, Hs1. cbn. by rewrite Hts. }
  destruct Hs2 as (Hts2 & Hm2 & Hinv2 & Hcb2).
  split; [exact Hcb2|].
  destruct (timer_fires_fresh s2 _ _ [] device Hts2) as (_ & Hinv & _);
    [rewrite Hm2; exact Hget | exact Hdevice |].
  cbn zeta in Hinv. fold s3 in Hinv. rewrite Hinv, Hm2, Hinv2. reflexivity.
Qed.

Lemma handler_keeps_its_callback_witness :
  let s := snd (startListeningForDevicesAsync (UserCallback 1) None initial) in
  let s1 := raise 0 (Added printer_a) s in
  let s2 := snd (startListeningForDevicesAsync (UserCallback 2) None s1) in
  let s3 := timer_fires s2 in
  currentSessionCallback s2 = UserCallback 2 /\
  invocations s3 =
    invocations s ++
    [(currentSessionCallback s,
      Obj.values (discoveredDevicesMap s ++ [(DeviceInformation.id printer_a, record_a)]))].
Proof.
  intros s s1 s2 s3.
  assert (Hw : watchers s !! 0 = Some (Watcher.mk Started (session_listeners false)))
    by reflexivity.
  assert (Hts : timers s = []) by reflexivity.
  assert (Hget : Obj.get (discoveredDevicesMap s) (DeviceInformation.id printer_a) = None)
    by reflexivity.
  exact (handler_keeps_its_callback s 0 false printer_a (UserCallback 2) None record_a
           Hw Hts Hget printer_a_record).
Defined.

End Deliveries.

(** ** The IPv4 pattern accepts the dotted quads and nothing else *)

Section Ipv4Pattern.

Import Regex.

Implicit Types (c : ascii) (s o : string) (prev : option ascii).
Implicit Types (k : option ascii -> string -> bool).

Lemma ipv4Pattern_groups :
  ipv4Pattern = Seq Begin (Seq (Repeat 4 group_pattern) End).
Proof. reflexivity. Qed.

(** *** Characters *)

Lemma code_inj c c' : code c = code c' -> c = c'.
Proof.
  unfold code. intros H.
  rewrite <- (ascii_N_embedding c), <- (ascii_N_embedding c'). by rewrite H.
Qed.

Lemma in_range_codes lo hi c :
  in_range lo hi c = true <-> (code lo <= code c /\ code c <= code hi)%N.
Proof. unfold in_range. rewrite andb_true_iff, !N.leb_le. tauto. Qed.

Lemma is_digit_codes c : is_digit c = true <-> (48 <= code c /\ code c <= 57)%N.
Proof. unfold is_digit. by rewrite in_range_codes. Qed.

Lemma is_digit_word c : is_digit c = true -> is_word c = true.
Proof. unfold is_word. intros ->. by rewrite orb_true_r. Qed.

Lemma eqb_codes c c' : Ascii.eqb c c' = true <-> code c = code c'.
Proof.
  rewrite Ascii.eqb_eq. split; [by intros -> | apply code_inj].
Qed.

(** *** The matcher, constructor by constructor *)

Lemma matches_Char c prev s k :
  matches (Char c) prev s k = true <->
  exists s', s = String c s' /\ k (Some c) s' = true.
Proof.
  cbn. destruct s as [|c' s'].
  - split; [discriminate | by intros (? & ? & _)].
  - rewrite andb_true_iff, Ascii.eqb_eq. split.
    + intros [<- Hk]. eauto.
    + intros (s'' & [= <- <-] & Hk). auto.
Qed.

Lemma matches_Range lo hi prev s k :
  matches (Range lo hi) prev s k = true <->
  exists c s', s = String c s' /\ in_range lo hi c = true /\ k (Some c) s' = true.
Proof.
  cbn. destruct s as [|c' s'].
  - split; [discriminate | by intros (? & ? & ? & _)].
  - rewrite andb_true_iff. split.
    + intros [Hr Hk]. eauto.
    + intros (c & s'' & [= <- <-] & Hr & Hk). auto.
Qed.

Lemma matches_Digit prev s k :
  matches Digit prev s k = true <->
  exists c s', s = String c s' /\ is_digit c = true /\ k (Some c) s' = true.
Proof.
  cbn. destruct s as [|c' s'].
  - split; [discriminate | by intros (? & ? & ? & _)].
  - rewrite andb_true_iff. split.
    + intros [Hr Hk]. eauto.
    + intros (c & s'' & [= <- <-] & Hr & Hk). auto.
Qed.

Lemma matches_Seq r1 r2 prev s k :
  matches (Seq r1 r2) prev s k =
  matches r1 prev s (fun prev' s' => matches r2 prev' s' k).
Proof. reflexivity. Qed.

Lemma matches_Alt r1 r2 prev s k :
  matches (Alt r1 r2) prev s k = true <->
  matches r1 prev s k = true \/ matches r2 prev s k = true.
Proof. cbn. apply orb_true_iff. Qed.

Lemma matches_Repeat_S n r prev s k :
  matches (Repeat (S n) r) prev s k =
  matches r prev s (fun prev' s' => matches (Repeat n r) prev' s' k).
Proof. reflexivity. Qed.

Lemma matches_Repeat_0 r prev s k : matches (Repeat 0 r) prev s k = k prev s.
Proof. reflexivity. Qed.

Ltac step_char H s1 :=
  rewrite ?matches_Seq in H; apply matches_Char in H as (s1 & -> & H); cbn beta in H.
Ltac step_range H c1 s1 Hr :=
  rewrite ?matches_Seq in H; apply matches_Range in H as (c1 & s1 & -> & Hr & H);
  cbn beta in H.
Ltac step_digit H c1 s1 Hr :=
  rewrite ?matches_Seq in H; apply matches_Digit in H as (c1 & s1 & -> & Hr & H);
  cbn beta in H.

Lemma matches_octet prev s k :
  matches octet_pattern prev s k = true <->
  exists o s', octet_shape o /\ s = o +:+ s' /\ k (end_char prev o) s' = true.
Proof.
  unfold octet_pattern. split.
  - intros H. apply matches_Alt in H as [H|H].
    { step_char H s1. step_char H s2. step_range H c3 s3 Hr.
      exists (String "2" (String "5" (String c3 ""))), s3. cbn. auto 10. }
    rewrite matches_Seq in H. apply matches_Alt in H as [H|H].
    { step_char H s1. step_range H c2 s2 Hr. step_digit H c3 s3 Hd.
      exists (String "2" (String c2 (String c3 ""))), s3. cbn. auto 10. }
    apply matches_Alt in H as [H|H].
    { step_char H s1. step_digit H c2 s2 Hr. step_digit H c3 s3 Hd.
      exists (String "1" (String c2 (String c3 ""))), s3. cbn. auto 10. }
    apply matches_Alt in H as [H|H].
    { step_range H c1 s1 Hr. step_digit H c2 s2 Hd.
      exists (String c1 (String c2 "")), s2. cbn. auto. }
    cbn [matches] in H. fold (matches Digit prev s k) in H.
    step_digit H c1 s1 Hd. exists (String c1 ""), s1. cbn. auto.
  - intros (o & s' & Hshape & -> & Hk).
    destruct o as [|c1 [|c2 [|c3 [|c4 o]]]]; cbn in Hshape; try contradiction.
    + apply matches_Alt. right. rewrite matches_Seq.
      do 3 (apply matches_Alt; right). cbn [matches].
      fold (matches Digit prev (String c1 "" +:+ s') k).
      apply matches_Digit. eauto.
    + destruct Hshape as [Hr Hd]. apply matches_Alt. right. rewrite matches_Seq.
      do 2 (apply matches_Alt; right). apply matches_Alt. left.
      apply matches_Range. do 2 eexists. split; [reflexivity|]. split; [exact Hr|].
      apply matches_Digit. eauto.
    + destruct Hshape as [(-> & H2 & H3)|[(-> & H2 & H3)|(-> & -> & H3)]].
      * apply matches_Alt. right. rewrite matches_Seq.
        apply matches_Alt; right. apply matches_Alt; left.
        rewrite matches_Seq. apply matches_Char. eexists. split; [reflexivity|].
        apply matches_Digit. do 2 eexists. split; [reflexivity|]. split; [exact H2|].
        apply matches_Digit. eauto.
      * apply matches_Alt. right. rewrite matches_Seq.
        apply matches_Alt; left.
        rewrite matches_Seq. apply matches_Char. eexists. split; [reflexivity|].
        apply matches_Range. do 2 eexists. split; [reflexivity|]. split; [exact H2|].
        apply matches_Digit. eauto.
      * apply matches_Alt. left.
        rewrite matches_Seq. apply matches_Char. eexists. split; [reflexivity|].
        rewrite matches_Seq. apply matches_Char. eexists. split; [reflexivity|].
        apply matches_Range. eauto.
Qed.

Lemma char_is c c0 : c = c0 <-> code c = code c0.
Proof. split; [by intros -> | apply code_inj]. Qed.

Lemma is_octet_shape o : is_octet o = true <-> octet_shape o.
Proof.
  destruct o as [|c1 [|c2 [|c3 [|c4 o]]]]; unfold is_octet, octet_shape;
    cbn [all_digits String.length numeral_value];
    rewrite ?andb_true_iff, ?Nat.leb_le, ?negb_true_iff, ?Ascii.eqb_neq,
      ?is_digit_codes, ?in_range_codes, ?(char_is c1), ?(char_is c2).
  all: change (code "0") with 48%N; change (code "1") with 49%N;
       change (code "2") with 50%N; change (code "4") with 52%N;
       change (code "5") with 53%N; change (code "9") with 57%N.
  all: unfold digit_value; lia.
Qed.

Lemma append_empty_r s : s +:+ "" = s.
Proof.
  induction s as [|c s IH]; [reflexivity|].
  change (String c (s +:+ "") = String c s). by rewrite IH.
Qed.

Lemma append_assoc s1 s2 s3 : (s1 +:+ s2) +:+ s3 = s1 +:+ s2 +:+ s3.
Proof.
  induction s1 as [|c s1 IH]; [reflexivity|].
  change (String c ((s1 +:+ s2) +:+ s3) = String c (s1 +:+ s2 +:+ s3)). by rewrite IH.
Qed.

Lemma range_is_digit lo hi c :
  (48 <= code lo)%N -> (code hi <= 57)%N -> in_range lo hi c = true -> is_digit c = true.
Proof. rewrite in_range_codes, is_digit_codes. lia. Qed.

(** An octet starts with a digit and ends on one. *)
Lemma octet_shape_head o s' :
  octet_shape o -> exists c s0, o +:+ s' = String c s0 /\ is_digit c = true.
Proof.
  destruct o as [|c1 [|c2 [|c3 [|c4 o]]]]; cbn; try contradiction.
  - eauto.
  - intros [Hr _]. do 2 eexists. split; [reflexivity|].
    by apply (range_is_digit "1" "9").
  - intros [(-> & _)|[(-> & _)|(-> & _)]]; eauto.
Qed.

Lemma octet_shape_end prev o :
  octet_shape o -> exists c, end_char prev o = Some c /\ is_digit c = true.
Proof.
  destruct o as [|c1 [|c2 [|c3 [|c4 o]]]]; cbn; try contradiction.
  - eauto.
  - intros [_ Hd]. eauto.
  - intros [(_ & _ & Hd)|[(_ & _ & Hd)|(_ & _ & Hr)]]; eauto.
    eexists. split; [reflexivity|]. by apply (range_is_digit "0" "5").
Qed.

(** The optional dot and the word boundary, after a word character. *)
Lemma matches_dot_boundary prev s k :
  is_word_opt prev = true ->
  matches (Seq (Opt (Char ".")) WordBoundary) prev s k = true <->
  (exists s', s = String "." s' /\ is_word_opt (next_char s') = true /\
              k (Some "."%char) s' = true) \/
  (is_word_opt (next_char s) = false /\ k prev s = true).
Proof.
  intros Hprev. rewrite matches_Seq. cbn [matches]. rewrite orb_true_iff.
  fold (matches (Char ".") prev s
          (fun prev' s' => xorb (is_word_opt prev') (is_word_opt (next_char s')) && k prev' s')).
  rewrite matches_Char, Hprev. cbn beta. split.
  - intros [(s' & -> & H) | H].
    + left. exists s'. apply andb_true_iff in H as [Hx Hk]. cbn in Hx. auto.
    + right. apply andb_true_iff in H as [Hx Hk].
      destruct (is_word_opt (next_char s)); [discriminate | auto].
  - intros [(s' & -> & Hw & Hk) | [Hw Hk]].
    + left. exists s'. split; [reflexivity|]. cbn. by rewrite Hw, Hk.
    + right. by rewrite Hw, Hk.
Qed.

Lemma matches_group prev s k :
  matches group_pattern prev s k = true <->
  exists o s', octet_shape o /\ s = o +:+ s' /\
    ((exists s2, s' = String "." s2 /\ is_word_opt (next_char s2) = true /\
                 k (Some "."%char) s2 = true) \/
     (is_word_opt (next_char s') = false /\ k (end_char prev o) s' = true)).
Proof.
  unfold group_pattern. rewrite matches_Seq, matches_octet.
  split; intros (o & s' & Hshape & -> & H); exists o, s';
    (split; [exact Hshape|]; split; [reflexivity|]);
    destruct (octet_shape_end prev o Hshape) as (c & Hend & Hd);
    apply matches_dot_boundary in H; auto;
    rewrite Hend; cbn; by apply is_digit_word.
Qed.

Lemma at_end_empty prev s : at_end prev s = true <-> s = "".
Proof. unfold at_end. cbn. destruct s; split; congruence. Qed.

Lemma dotted_head n s :
  dotted (S n) s -> exists c s0, s = String c s0 /\ is_word c = true.
Proof.
  destruct n as [|n]; cbn.
  - intros Ho. apply is_octet_shape in Ho.
    destruct (octet_shape_head s "" Ho) as (c & s0 & Heq & Hd).
    rewrite append_empty_r in Heq. exists c, s0. split; [exact Heq | by apply is_digit_word].
  - intros (o & s' & Ho & -> & _). apply is_octet_shape in Ho.
    destruct (octet_shape_head o ("." +:+ s') Ho) as (c & s0 & Heq & Hd).
    exists c, s0. split; [exact Heq | by apply is_digit_word].
Qed.

(** The groups of the pattern, followed by the end of the input, match
    the octets with dots between them. *)
Lemma matches_groups n prev s :
  matches (Repeat (S n) group_pattern) prev s at_end = true <-> dotted (S n) s.
Proof.
  revert prev s. induction n as [|n IH]; intros prev s;
    rewrite matches_Repeat_S, matches_group.
  - cbn [dotted]. rewrite is_octet_shape. split.
    + intros (o & s' & Ho & -> & [(s2 & -> & Hw & Hk)|[_ Hk]]).
      * rewrite matches_Repeat_0 in Hk. apply at_end_empty in Hk. subst s2. discriminate.
      * rewrite matches_Repeat_0 in Hk. apply at_end_empty in Hk. subst s'.
        by rewrite append_empty_r.
    + intros Ho. exists s, "". split; [exact Ho|]. split; [by rewrite append_empty_r|].
      right. split; [reflexivity|]. rewrite matches_Repeat_0. by apply at_end_empty.
  - change (dotted (S (S n)) s) with
      (exists o s', is_octet o = true /\ s = o +:+ "." +:+ s' /\ dotted (S n) s').
    split.
    + intros (o & s' & Ho & -> & [(s2 & -> & Hw & Hk)|[Hw Hk]]).
      * exists o, s2. rewrite is_octet_shape. split; [exact Ho|].
        split; [reflexivity|]. by apply (IH (Some "."%char)).
      * apply IH in Hk. destruct (dotted_head n s' Hk) as (c & s0 & -> & Hc).
        cbn in Hw. congruence.
    + intros (o & s' & Ho & -> & Hd). apply is_octet_shape in Ho.
      exists o, ("." +:+ s'). split; [exact Ho|]. split; [reflexivity|].
      left. exists s'. split; [reflexivity|]. split.
      * destruct (dotted_head n s' Hd) as (c & s0 & -> & Hc). exact Hc.
      * by apply IH.
Qed.

(** A pattern that starts with [^] matches at the start of the input
    only. *)
Lemma search_anchored r c s : search (Seq Begin r) (Some c) s = false.
Proof.
  revert c. induction s as [|c' s IH]; intros c; cbn; [reflexivity | apply IH].
Qed.

Lemma test_anchored r s :
  test (Seq Begin r) s = matches r None s (fun _ _ => true).
Proof.
  unfold test. destruct s as [|c s]; cbn [search].
  - by rewrite orb_false_r.
  - by rewrite search_anchored, orb_false_r.
Qed.

Lemma dotted_quad s : dotted 4 s <-> is_dotted_quad s.
Proof.
  unfold is_dotted_quad. cbn [dotted]. split.
  - intros (o1 & s1 & H1 & -> & o2 & s2 & H2 & -> & o3 & s3 & H3 & -> & H4).
    exists o1, o2, o3, s3. auto 10.
  - intros (o1 & o2 & o3 & o4 & -> & H1 & H2 & H3 & H4).
    exists o1, (o2 +:+ "." +:+ o3 +:+ "." +:+ o4). split; [exact H1|]. split; [reflexivity|].
    exists o2, (o3 +:+ "." +:+ o4). split; [exact H2|]. split; [reflexivity|].
    exists o3, o4. auto.
Qed.

Lemma test_dotted_quad s : test ipv4Pattern s = true <-> is_dotted_quad s.
Proof.
  rewrite ipv4Pattern_groups, test_anchored, matches_Seq, <- dotted_quad.
  apply (matches_groups 3).
Qed.

(** The IPv4 test accepts exactly the dotted quads: four decimal
    numerals from 0 to 255 without leading zeros, separated by single
    dots, with nothing before or after. *)
Theorem ipv4Pattern_accepts_dotted_quads s :
  test ipv4Pattern s = true <-> is_dotted_quad s.
Proof. apply test_dotted_quad. Qed.

Lemma ipv4Pattern_accepts_dotted_quads_witness :
  is_dotted_quad "192.168.1.5" /\ ~ is_dotted_quad "fe80::1".
Proof.
  split.
  - exact (proj1 (ipv4Pattern_accepts_dotted_quads "192.168.1.5") eq_refl).
  - intros H. apply (proj2 (ipv4Pattern_accepts_dotted_quads "fe80::1")) in H.
    discriminate H.
Defined.

(** *** The characters of an accepted string *)

Lemma length_append s1 s2 :
  String.length (s1 +:+ s2) = String.length s1 + String.length s2.
Proof.
  induction s1 as [|c s1 IH]; [reflexivity|].
  change (S (String.length (s1 +:+ s2)) = S (String.length s1 + String.length s2)).
  by rewrite IH.
Qed.

Lemma list_ascii_append s1 s2 :
  list_ascii_of_string (s1 +:+ s2) = list_ascii_of_string s1 ++ list_ascii_of_string s2.
Proof.
  induction s1 as [|c s1 IH]; [reflexivity|].
  change (c :: list_ascii_of_string (s1 +:+ s2) =
          c :: (list_ascii_of_string s1 ++ list_ascii_of_string s2)).
  by rewrite IH.
Qed.

Lemma all_digits_chars o c :
  all_digits o = true -> In c (list_ascii_of_string o) -> is_digit c = true.
Proof.
  induction o as [|c' o IH]; cbn; [contradiction|].
  intros H [<-|Hin]; apply andb_true_iff in H as [Hd Ho]; auto.
Qed.

Lemma is_octet_digits o :
  is_octet o = true ->
  all_digits o = true /\ 1 <= String.length o <= 3.
Proof.
  unfold is_octet. rewrite !andb_true_iff, !Nat.leb_le. tauto.
Qed.

(** A string that passes the IPv4 test has 7 to 15 characters, all of
    them digits or dots: an address with a colon, a letter or a space
    never passes. *)
Theorem ipv4_test_characters s :
  test ipv4Pattern s = true ->
  7 <= String.length s <= 15 /\
  forall c, In c (list_ascii_of_string s) -> is_digit c = true \/ c = "."%char.
Proof.
  intros H. apply test_dotted_quad in H as (o1 & o2 & o3 & o4 & -> & H1 & H2 & H3 & H4).
  apply is_octet_digits in H1 as [D1 L1], H2 as [D2 L2], H3 as [D3 L3], H4 as [D4 L4].
  split.
  - rewrite !length_append. cbn [String.length]. lia.
  - intros c. rewrite !list_ascii_append. cbn [list_ascii_of_string].
    rewrite !in_app_iff. cbn [In].
    intros [Hin|[[<-|[]]|[Hin|[[<-|[]]|[Hin|[[<-|[]]|Hin]]]]]];
      eauto using all_digits_chars.
Qed.

Lemma ipv4_test_characters_witness :
  7 <= String.length "10.0.0.1" <= 15 /\
  forall c, In c (list_ascii_of_string "10.0.0.1") -> is_digit c = true \/ c = "."%char.
Proof. apply ipv4_test_characters. reflexivity. Defined.

End Ipv4Pattern.

(** ** Further properties of the property mapping *)

Section MappingProperties.

Implicit Types (properties : gmap string PropertyValue).
Implicit Types (r : IDnssdServiceInstance) (value : PropertyValue).

(** The mapping reads the six well-known keys and nothing else: two bags
    that agree on them give the same record, whatever else they hold. *)
Theorem mapping_reads_well_known_keys_only properties properties' :
  (forall key, In key propertyKeys -> properties !! key = properties' !! key) ->
  getDeviceFromProperties properties = getDeviceFromProperties properties'.
Proof.
  intros Hagree. rewrite !getDeviceFromProperties_unfold.
  rewrite !Hagree by (cbn; tauto). reflexivity.
Qed.

Lemma mapping_reads_well_known_keys_only_witness :
  getDeviceFromProperties
    (<["System.Devices.Dnssd.Domain" := PString "local"]>
       (DeviceInformation.properties printer_a)) =
  getDeviceFromProperties (DeviceInformation.properties printer_a).
Proof.
  apply mapping_reads_well_known_keys_only.
  intros key [<-|[<-|[<-|[<-|[<-|[<-|[]]]]]]]; reflexivity.
Defined.

(** What the address case leaves in the convenience fields of a record
    that had none, for any value of the address property. *)
Lemma assign_addresses_provenance value r r' :
  ipv4Address r = None -> ipv6Address r = None ->
  assign_addresses value r = Returns r' ->
  (forall v, ipv4Address r' = Some v ->
     exists a, v = PString a /\ js_index value 0 = Some a /\
               Regex.test ipv4Pattern a = true) /\
  (forall v, ipv6Address r' = Some v ->
     exists a, v = PString a /\
       (js_index value 1 = Some a \/
        (js_index value 0 = Some a /\ Regex.test ipv4Pattern a = false))).
Proof.
  intros H4 H6. unfold assign_addresses.
  destruct (length_gt value 0) as [[|]|]; [| |discriminate];
    destruct (js_index value 0) as [entry0|],
    (length_gt value 1) as [[|]|], (js_index value 1) as [entry1|];
    try destruct (Regex.test ipv4Pattern entry0) eqn:Htest;
    cbn; try discriminate; intros [= <-]; cbn; rewrite ?H4, ?H6;
    split; intros v [= <-]; eauto 6.
Qed.

(** The convenience fields never hold anything but the first two entries
    of the address property: [ipv4Address], when set, is entry 0 and a
    dotted quad; [ipv6Address], when set, is entry 1, or entry 0 when
    that is not a dotted quad.  Without the address property both stay
    unset. *)
Theorem convenience_fields_provenance properties r :
  getDeviceFromProperties properties = Returns r ->
  (forall v, ipv4Address r = Some v ->
     exists value a, properties !! IPADDRESS_PROPERTY = Some value /\
       v = PString a /\ js_index value 0 = Some a /\ is_dotted_quad a) /\
  (forall v, ipv6Address r = Some v ->
     exists value a, properties !! IPADDRESS_PROPERTY = Some value /\
       v = PString a /\
       (js_index value 1 = Some a \/
        (js_index value 0 = Some a /\ ~ is_dotted_quad a))).
Proof.
  destruct (properties !! IPADDRESS_PROPERTY) as [value|] eqn:Hip.
  - rewrite getDeviceFromProperties_unfold, Hip. cbn zeta. cbn [from_option].
    match goal with
    | |- context [assign_addresses value ?r0] =>
        destruct (assign_addresses value r0) as [r'|error] eqn:Hr';
        [|discriminate];
        assert (P : ipv4Address r0 = None /\ ipv6Address r0 = None)
          by (destruct (properties !! HOSTNAME_PROPERTY),
                (properties !! SERVICENAME_PROPERTY),
                (properties !! INSTANCENAME_PROPERTY); by split);
        destruct P as [P4 P6];
        destruct (assign_addresses_provenance value r0 r' P4 P6 Hr') as [Q4 Q6]
    end.
    intros [= <-].
    assert (Hfields : forall r1,
              ipv4Address
                (from_option (fun v => set_textAttributes v
                    (from_option (fun v0 => set_portNumber v0 r1) r1
                       (properties !! PORTNUMBER_PROPERTY)))
                   (from_option (fun v0 => set_portNumber v0 r1) r1
                      (properties !! PORTNUMBER_PROPERTY))
                   (properties !! TEXTATTRIBUTES_PROPERTY)) = ipv4Address r1 /\
              ipv6Address
                (from_option (fun v => set_textAttributes v
                    (from_option (fun v0 => set_portNumber v0 r1) r1
                       (properties !! PORTNUMBER_PROPERTY)))
                   (from_option (fun v0 => set_portNumber v0 r1) r1
                      (properties !! PORTNUMBER_PROPERTY))
                   (properties !! TEXTATTRIBUTES_PROPERTY)) = ipv6Address r1).
    { intros r1. destruct (properties !! PORTNUMBER_PROPERTY),
        (properties !! TEXTATTRIBUTES_PROPERTY); by split. }
    destruct (Hfields r') as [-> ->].
    split; intros v Hv.
    + destruct (Q4 v Hv) as (a & -> & H0 & Ht).
      exists value, a. repeat split; [exact H0 | by apply test_dotted_quad].
    + destruct (Q6 v Hv) as (a & -> & [H1|[H0 Ht]]);
        exists value, a; repeat split; [by left | right; split; [exact H0|]].
      rewrite <- test_dotted_quad. congruence.
  - destruct (getDeviceFromProperties_no_addresses properties Hip) as (r0 & -> & _ & H4 & H6).
    intros [= <-]. rewrite H4, H6. split; discriminate.
Qed.

Lemma convenience_fields_provenance_witness :
  exists value a,
    DeviceInformation.properties printer_a !! IPADDRESS_PROPERTY = Some value /\
    PString "192.168.1.5" = PString a /\ js_index value 0 = Some a /\ is_dotted_quad a.
Proof.
  exact (proj1 (convenience_fields_provenance (DeviceInformation.properties printer_a)
                  record_a printer_a_record)
           (PString "192.168.1.5") eq_refl).
Defined.

(** The mapping returns a record exactly for the bags whose address
    value, when there is one, has a length to read; for the others,
    those that hold [null] or [undefined] under the address key, it
    throws a [TypeError], and it throws nothing else. *)
Theorem mapping_throws_on_unreadable_addresses properties :
  ((exists r, getDeviceFromProperties properties = Returns r) <->
   addresses_readable properties) /\
  (forall error, getDeviceFromProperties properties = Throws error ->
     error = TypeError /\
     exists value, properties !! IPADDRESS_PROPERTY = Some value /\
                   has_length value = false).
Proof.
  assert (Hcases : addresses_readable properties \/
            exists value, properties !! IPADDRESS_PROPERTY = Some value /\
                          has_length value = false).
  { unfold addresses_readable.
    destruct (properties !! IPADDRESS_PROPERTY) as [value|]; [|left; discriminate].
    destruct (has_length value) eqn:Hlen; [left | right; eauto].
    by intros value' [= <-]. }
  split.
  - split.
    + intros [r Hr]. destruct Hcases as [Hreadable|(value & Hip & Hlen)]; [exact Hreadable|].
      rewrite (getDeviceFromProperties_throws _ _ Hip Hlen) in Hr. discriminate.
    + intros Hreadable.
      destruct (getDeviceFromProperties_fields _ Hreadable) as (r & Hr & _). eauto.
  - intros error Herror. destruct Hcases as [Hreadable|(value & Hip & Hlen)].
    + destruct (getDeviceFromProperties_fields _ Hreadable) as (r & Hr & _). congruence.
    + rewrite (getDeviceFromProperties_throws _ _ Hip Hlen) in Herror.
      injection Herror as <-. eauto.
Qed.

End MappingProperties.

(** ** Further properties of the one-shot enumeration *)

Section EnumerationProperties.

Implicit Types (s : State) (comDevices : list DeviceInformation.t).

(** An enumeration that the platform completes resolves to the records
    of the devices in the order of the collection, up to the first
    device whose mapping throws: with none, every device has its record
    and their number is logged; otherwise the records mapped before
    that device are the result and what was thrown is logged as an
    error.  When every device has a readable address property, none
    throws.  No outcome touches the watcher reference, the map, the
    watchers, the timers or the record of invocations. *)
Theorem findAll_maps_every_device comDevices s :
  (exists services,
     fst (findAllDevicesAsync (Completed comDevices) s) = Resolved services /\
     Forall2 (fun comDevice r =>
                getDeviceFromProperties (DeviceInformation.properties comDevice) = Returns r)
             (take (length services) comDevices) services /\
     ((length services = length comDevices /\
       console (snd (findAllDevicesAsync (Completed comDevices) s)) =
         console s ++ [LogFound (length comDevices)]) \/
      (exists comDevice error,
         comDevices !! length services = Some comDevice /\
         getDeviceFromProperties (DeviceInformation.properties comDevice) = Throws error /\
         console (snd (findAllDevicesAsync (Completed comDevices) s)) =
           console s ++ [LogErrorDiscovering error])) /\
     (Forall (fun comDevice => addresses_readable (DeviceInformation.properties comDevice))
             comDevices ->
      length services = length comDevices)) /\
  (forall platform,
     let s' := snd (findAllDevicesAsync platform s) in
     DeviceWatcher s' = DeviceWatcher s /\
     discoveredDevicesMap s' = discoveredDevicesMap s /\
     watchers s' = watchers s /\ timers s' = timers s /\
     invocations s' = invocations s).
Proof.
  split.
  - destruct (findAll_loop_spec comDevices (length comDevices) 0 []) as
      (mapped & Hfst & Hall & Hsnd); [reflexivity|].
    unfold findAllDevicesAsync.
    destruct (findAll_loop comDevices 0 (length comDevices) []) as [services thrown].
    cbn [fst snd] in Hfst, Hsnd. rewrite app_nil_l in Hfst. subst services.
    rewrite drop_0 in Hall.
    assert (Hcases :
      (length mapped = length comDevices /\ thrown = None) \/
      (exists comDevice error, thrown = Some error /\
         comDevices !! length mapped = Some comDevice /\
         getDeviceFromProperties (DeviceInformation.properties comDevice) = Throws error)).
    { destruct thrown as [error|]; [|left; split; [exact Hsnd | reflexivity]].
      destruct Hsnd as (comDevice & Hi & Hthrows). right. eauto. }
    exists mapped. destruct Hcases as [[Hlen ->]|(comDevice & error & -> & Hi & Hthrows)].
    + split; [reflexivity|]. split; [exact Hall|]. split; [|by intros _].
      left. split; [exact Hlen|]. cbn. by rewrite Hlen.
    + split; [reflexivity|]. split; [exact Hall|]. split; [right; eauto 6|].
      intros Hreadable. exfalso. rewrite Forall_lookup in Hreadable.
      destruct (getDeviceFromProperties_fields _ (Hreadable _ _ Hi)) as (r & Hr & _).
      congruence.
  - intros [comDevices'|error]; unfold findAllDevicesAsync; [|repeat split].
    destruct (findAll_loop comDevices' 0 (length comDevices') []) as [services [thrown|]];
      repeat split.
Qed.

End EnumerationProperties.

(** ** Watchers over the life of the helper *)

Section WatcherProperties.

Implicit Types (s : State) (i : Input) (ins : list Input) (w : nat).

Lemma step_superseded s i w : superseded w s -> superseded w (step s i).
Proof.
  intros (watcher & Hw & Hst & Hcur). destruct (is_start i) eqn:Hi.
  - destruct i; try discriminate. cbn [step]. rewrite start_effect. cbn.
    exists watcher. split; [by apply lookup_app_l_Some|]. split; [exact Hst|].
    intros [= Heq]. apply lookup_lt_Some in Hw. lia.
  - destruct (step_quiet_or_stopped s i Hi) as [[Hh' Hw']|(h & Hh & Hh' & Hw')].
    + exists watcher. rewrite Hh', Hw'. auto.
    + exists watcher. rewrite Hh', Hw'. split; [|split; [exact Hst | discriminate]].
      rewrite list_lookup_alter_ne; [exact Hw | congruence].
Qed.

(** A running watcher that the helper no longer refers to is never
    stopped: whatever is called and whatever happens afterwards, it keeps
    running and the helper never refers to it again. *)
Theorem superseded_watcher_never_stopped ins s w :
  superseded w s ->
  watcher_status w (run ins s) = Some Started /\
  DeviceWatcher (run ins s) <> Some w.
Proof.
  intros Hs. assert (H : superseded w (run ins s)).
  { revert s Hs. induction ins as [|i ins IH]; intros s Hs; [exact Hs|].
    rewrite run_cons. by apply IH, step_superseded. }
  destruct H as (watcher & Hw & Hst & Hcur).
  split; [|exact Hcur]. unfold watcher_status. by rewrite Hw, <- Hst.
Qed.

Lemma superseded_watcher_never_stopped_witness :
  let s1 := snd (startListeningForDevicesAsync (UserCallback 1) None initial) in
  let s := snd (startListeningForDevicesAsync (UserCallback 2) None s1) in
  let ins := [CallStopListening; Raise 0 EnumerationCompleted; CallStopListening;
              CallStartListening (UserCallback 3) None; CallStopListening] in
  superseded 0 s /\
  watcher_status 0 (run ins s) = Some Started /\
  DeviceWatcher (run ins s) <> Some 0.
Proof.
  intros s1 s ins.
  assert (Hs : superseded 0 s).
  { eexists. split; [reflexivity|]. split; [reflexivity | discriminate]. }
  split; [exact Hs|]. exact (superseded_watcher_never_stopped ins s 0 Hs).
Defined.

Lemma step_watchers_length s i :
  length (watchers (step s i)) =
  length (watchers s) + (if is_start i then 1 else 0).
Proof.
  destruct (is_start i) eqn:Hi.
  - destruct i; try discriminate. cbn [step]. rewrite start_effect. cbn.
    by rewrite length_app.
  - destruct (step_quiet_or_stopped s i Hi) as [[_ ->]|(h & _ & _ & ->)];
      rewrite ?length_alter; lia.
Qed.

(** Every call to start creates one watcher, whether or not one was
    running, and no watcher is ever discarded: the helper has created as
    many watchers as start has been called. *)
Theorem watchers_count_start_calls ins :
  length (watchers (run ins initial)) = count_starts ins.
Proof.
  change (count_starts ins) with (length (watchers initial) + count_starts ins).
  generalize initial as s. induction ins as [|i ins IH]; intros s.
  - cbn. lia.
  - rewrite run_cons, IH, step_watchers_length. unfold count_starts. cbn [List.filter].
    destruct (is_start i); cbn [length]; lia.
Qed.

(** *** Invocations *)

Lemma raise_invocations w n s : invocations (raise w n s) = invocations s.
Proof.
  unfold raise. destruct (watchers s !! w) as [watcher|]; [|reflexivity].
  destruct (Watcher.running watcher); [|reflexivity].
  generalize (Watcher.listeners watcher) as ls. intros ls. revert s.
  induction ls as [|l ls IH]; intros s; [reflexivity|].
  cbn [fold_left]. rewrite IH.
  destruct l as [[|]| |], n; try reflexivity.
  cbn [call_listener negb]. rewrite stop_effect. cbn. by destruct (DeviceWatcher s).
Qed.

Lemma Obj_values_snoc_nonempty {A} (o : list (string * A)) (e : string * A) :
  Obj.values (o ++ [e]) <> [].
Proof.
  intros Hnil. apply (f_equal length) in Hnil.
  rewrite Obj_values_length, length_app in Hnil. cbn in Hnil. lia.
Qed.

Lemma step_deliveries_nonempty s i :
  deliveries_nonempty s -> deliveries_nonempty (step s i).
Proof.
  unfold deliveries_nonempty. intros Hs. destruct i as [w n| | |]; cbn [step].
  - by rewrite raise_invocations.
  - unfold timer_fires. destruct (timers s) as [|[ms k] rest] eqn:Hts; [exact Hs|].
    destruct (resume_cases k (set_timers rest s)) as [[-> _]|(device & Hget & Hdevice)];
      [by destruct s|].
    destruct (resume_fresh k (set_timers rest s) device Hget Hdevice) as (_ & -> & _).
    apply Forall_app. split; [by destruct s|]. apply Forall_singleton.
    apply Obj_values_snoc_nonempty.
  - by rewrite start_effect.
  - rewrite stop_effect. by destruct (DeviceWatcher s).
Qed.

(** The callback is never invoked with an empty list: in every state the
    helper reaches, each invocation made so far delivered at least the
    device that caused it. *)
Theorem callback_never_gets_empty_list ins : deliveries_nonempty (run ins initial).
Proof.
  apply (reachable_ind deliveries_nonempty); [apply Forall_nil_2 | | by exists ins].
  intros s i. apply step_deliveries_nonempty.
Qed.

(** A device that the session's watcher reports as added, with an
    identifier that reads as nothing in the map and properties that the
    mapping accepts: once its delay has elapsed it is stored under its
    identifier with the record mapped from its properties, and the
    session's callback receives the values of the map with the new
    entry, which are the records known before followed by the new one
    when the identifier does not read as an array index. *)
Theorem added_device_is_stored_and_delivered s w (upd : bool)
    (comDevice : DeviceInformation.t) (device : IDnssdServiceInstance) :
  watchers s !! w = Some (Watcher.mk Started (session_listeners upd)) ->
  timers s = [] ->
  Obj.get (discoveredDevicesMap s) (DeviceInformation.id comDevice) = None ->
  getDeviceFromProperties (DeviceInformation.properties comDevice) = Returns device ->
  let s' := timer_fires (raise w (Added comDevice) s) in
  let m := discoveredDevicesMap s ++ [(DeviceInformation.id comDevice, device)] in
  discoveredDevicesMap s' = m /\
  Obj.get (discoveredDevicesMap s') (DeviceInformation.id comDevice)
    = Some (Obj.Own device) /\
  invocations s' = invocations s ++ [(currentSessionCallback s, Obj.values m)] /\
  (Obj.array_index (DeviceInformation.id comDevice) = None ->
   Obj.values m = Obj.values (discoveredDevicesMap s) ++ [device]) /\
  timers s' = [].
Proof.
  intros Hw Hts Hget Hdevice s' m.
  assert (Hs1 : raise w (Added comDevice) s =
                delay DEVICE_INFORMATION_PARSING_DELAY
                  (AfterDelayAdded comDevice (currentSessionCallback s)) s)
    by (by apply (raise_added_schedules w upd)).
  unfold s'. rewrite Hs1.
  match goal with |- context [timer_fires ?s0] => set (waiting := s0) end.
  assert (Hts1 : timers waiting = [(DEVICE_INFORMATION_PARSING_DELAY,
                   AfterDelayAdded comDevice (currentSessionCallback s))])
    by (unfold waiting, delay; cbn; by rewrite Hts).
  destruct (timer_fires_fresh waiting _ _ [] device Hts1 Hget Hdevice)
    as (Hm & Hinv & _ & Ht).
  cbn zeta in Hm, Hinv. rewrite Hm, Hinv, Ht.
  cbn [continuation_id continuation_arguments fst snd].
  change (discoveredDevicesMap waiting) with (discoveredDevicesMap s).
  change (invocations waiting) with (invocations s). fold m.
  split; [reflexivity|]. split; [|split; [reflexivity|split; [|reflexivity]]].
  - unfold m. by rewrite (Obj_get_app_fresh _ _ _ _ Hget), String.eqb_refl.
  - intros Hnamed. by apply Obj_values_snoc_named.
Qed.

Lemma added_device_is_stored_and_delivered_witness :
  let s := snd (startListeningForDevicesAsync (UserCallback 1) None initial) in
  let s' := timer_fires (raise 0 (Added printer_a) s) in
  let m := discoveredDevicesMap s ++ [(DeviceInformation.id printer_a, record_a)] in
  discoveredDevicesMap s' = m /\
  Obj.get (discoveredDevicesMap s') (DeviceInformation.id printer_a)
    = Some (Obj.Own record_a) /\
  invocations s' = invocations s ++ [(currentSessionCallback s, Obj.values m)] /\
  (Obj.array_index (DeviceInformation.id printer_a) = None ->
   Obj.values m = Obj.values (discoveredDevicesMap s) ++ [record_a]) /\
  timers s' = [].
Proof.
  intros s s' m.
  assert (Hw : watchers s !! 0 = Some (Watcher.mk Started (session_listeners false)))
    by reflexivity.
  assert (Hts : timers s = []) by reflexivity.
  assert (Hget : Obj.get (discoveredDevicesMap s) (DeviceInformation.id printer_a) = None)
    by reflexivity.
  exact (added_device_is_stored_and_delivered s 0 false printer_a record_a
           Hw Hts Hget printer_a_record).
Defined.

(** A session started without listening for updates, with no further
    call to start before the platform reports the end of the
    enumeration: at that signal the session's watcher is stopped and
    the helper refers to no watcher; the watcher stays stopped whatever
    happens later, the helper stays without a watcher until the next
    call to start, and an "updated" notification never reaches the
    helper in this mode. *)
Theorem scan_only_session_stops s0 (callback : Callback) (arg : option bool) ins :
  default false arg = false ->
  forallb (fun i => negb (is_start i)) ins = true ->
  let w := length (watchers s0) in
  let s1 := snd (startListeningForDevicesAsync callback arg s0) in
  let s2 := step (run ins s1) (Raise w EnumerationCompleted) in
  DeviceWatcher s1 = Some w /\
  watcher_status w s1 = Some Started /\
  watcher_status w s2 = Some Stopped /\
  DeviceWatcher s2 = None /\
  (forall later, watcher_status w (run later s2) = Some Stopped) /\
  (forall later, forallb (fun i => negb (is_start i)) later = true ->
     DeviceWatcher (run later s2) = None) /\
  (forall any comDevice, raise w (Updated comDevice) (run any s1) = run any s1).
Proof.
  intros Harg Hins w s1 s2.
  destruct (start_scan_only callback arg s0 Harg) as [Hcur Hw].
  fold w s1 in Hcur, Hw.
  assert (Hsession : scan_only_session w s1).
  { eexists. split; [exact Hw|]. split; [reflexivity | by left]. }
  assert (Hstopped : scan_only_stopped w s2 /\ DeviceWatcher s2 = None).
  { apply raise_enumeration_completed. by apply scan_only_session_run. }
  destruct Hstopped as [Hstopped Hnone].
  assert (Hlater : forall later, scan_only_stopped w (run later s2))
    by (intros later; by apply scan_only_stopped_run).
  assert (Hstatus : forall s, scan_only_stopped w s -> watcher_status w s = Some Stopped).
  { intros s (watcher & Hlk & _ & Hst). unfold watcher_status. by rewrite Hlk, <- Hst. }
  split; [exact Hcur|]. split; [unfold watcher_status; by rewrite Hw|].
  split; [by apply Hstatus|]. split; [exact Hnone|].
  split; [intros later; by apply Hstatus|].
  split.
  { intros later Hlater'.
    apply (scan_only_session_stopped_reference w); [|apply Hlater].
    apply scan_only_session_run; [exact Hlater'|].
    by apply scan_only_stopped_session. }
  intros any comDevice. apply raise_updated_scan_only, scan_only_watcher_run.
  eexists. split; [exact Hw | reflexivity].
Qed.

Lemma scan_only_session_stops_witness :
  let s1 := snd (startListeningForDevicesAsync (UserCallback 1) None initial) in
  let ins := [Raise 0 (Added printer_a); TimerFires] in
  let s2 := step (run ins s1) (Raise 0 EnumerationCompleted) in
  forallb (fun i => negb (is_start i)) ins = true /\
  watcher_status 0 s1 = Some Started /\
  watcher_status 0 s2 = Some Stopped /\
  watcher_status 0 (run [Raise 0 (Added printer_b); TimerFires] s2) = Some Stopped.
Proof.
  intros s1 ins s2.
  assert (Harg : default false (@None bool) = false) by reflexivity.
  assert (Hins : forallb (fun i => negb (is_start i)) ins = true) by reflexivity.
  destruct (scan_only_session_stops initial (UserCallback 1) None ins Harg Hins)
    as (_ & Hstarted & Hstopped & _ & Hlater & _).
  split; [exact Hins|]. split; [exact Hstarted|]. split; [exact Hstopped|].
  exact (Hlater [Raise 0 (Added printer_b); TimerFires]).
Defined.

End WatcherProperties.
